(** * pgsqlconsts: a model of [main.go] and the properties of its pipeline

    [main.go] reads a SQL schema, keeps the [CREATE TABLE] statements,
    reduces each to a [Table] (name and ordered columns), renders the tables
    through a text template and formats the result as Go source.

    Go strings are byte sequences: they are modelled by [string] (a list of
    8-bit characters).  A rune is a [Z].  Pointers that the code dereferences
    are [option]s and a nil dereference is the outcome [Panicked]. *)

From Stdlib Require Import ZArith Ascii String List Bool Lia.
From stdpp Require Import base option list gmap strings.
Import ListNotations.

#[local] Set Warnings "-register-all".
#[local] Open Scope string_scope.
#[local] Open Scope list_scope.
#[local] Open Scope Z_scope.

(** ** Bytes and strings *)

Abbreviation rune := Z (only parsing).

Definition byte_of_ascii (a : ascii) : Z := Z.of_N (N_of_ascii a).
Definition ascii_of_byte (b : Z) : ascii := ascii_of_N (Z.to_N (b mod 256)).

Definition bytes_of_string (s : string) : list Z :=
  map byte_of_ascii (list_ascii_of_string s).
Definition string_of_bytes (l : list Z) : string :=
  string_of_list_ascii (map ascii_of_byte l).

(** The characters the sources name by a literal. *)
Definition NL : string := String (ascii_of_nat 10) EmptyString.
Definition TAB : string := String (ascii_of_nat 9) EmptyString.
Definition DQ : string := String (ascii_of_nat 34) EmptyString.

(** ** Package [unicode/utf8] *)

Module utf8.

Definition RuneError : rune := 0xFFFD.
Definition RuneSelf : Z := 0x80.
Definition MaxRune : rune := 0x10FFFF.
Definition surrogateMin : Z := 0xD800.
Definition surrogateMax : Z := 0xDFFF.
Definition rune1Max : Z := 0x7F.
Definition rune2Max : Z := 0x7FF.
Definition rune3Max : Z := 0xFFFF.

Definition t2 : Z := 0xC0.
Definition t3 : Z := 0xE0.
Definition t4 : Z := 0xF0.
Definition tx : Z := 0x80.
Definition maskx : Z := 0x3F.
Definition mask2 : Z := 0x1F.
Definition mask3 : Z := 0x0F.
Definition mask4 : Z := 0x07.
Definition locb : Z := 0x80.
Definition hicb : Z := 0xBF.

(** What the table [first] says of a leading byte: ASCII, invalid, or the
    start of a sequence of [size] bytes whose second byte lies in
    [lo..hi] (the entry of [acceptRanges]). *)
Inductive lead : Type :=
| LeadASCII
| LeadInvalid
| LeadMulti (size : nat) (lo hi : Z).

Definition first (s0 : Z) : lead :=
  if s0 <? 0x80 then LeadASCII
  else if s0 <? 0xC2 then LeadInvalid
  else if s0 <? 0xE0 then LeadMulti 2 locb hicb
  else if s0 =? 0xE0 then LeadMulti 3 0xA0 hicb
  else if s0 <? 0xED then LeadMulti 3 locb hicb
  else if s0 =? 0xED then LeadMulti 3 locb 0x9F
  else if s0 <? 0xF0 then LeadMulti 3 locb hicb
  else if s0 =? 0xF0 then LeadMulti 4 0x90 hicb
  else if s0 <? 0xF4 then LeadMulti 4 locb hicb
  else if s0 =? 0xF4 then LeadMulti 4 locb 0x8F
  else LeadInvalid.

Definition cont (b : Z) : bool := (locb <=? b) && (b <=? hicb).

(** [DecodeRuneInString]: the first rune of a non-empty string and its
    width in bytes; an invalid or truncated sequence is [RuneError] of
    width 1. *)
Definition DecodeRune (s0 : Z) (rest : list Z) : rune * nat :=
  match first s0 with
  | LeadASCII => (s0, 1%nat)
  | LeadInvalid => (RuneError, 1%nat)
  | LeadMulti sz lo hi =>
      match rest with
      | s1 :: rest1 =>
          if negb ((lo <=? s1) && (s1 <=? hi)) then (RuneError, 1%nat)
          else if (sz <=? 2)%nat then
            (Z.lor (Z.shiftl (Z.land s0 mask2) 6) (Z.land s1 maskx), 2%nat)
          else
            match rest1 with
            | s2 :: rest2 =>
                if negb (cont s2) then (RuneError, 1%nat)
                else if (sz <=? 3)%nat then
                  (Z.lor (Z.lor (Z.shiftl (Z.land s0 mask3) 12)
                                (Z.shiftl (Z.land s1 maskx) 6))
                         (Z.land s2 maskx), 3%nat)
                else
                  match rest2 with
                  | s3 :: _ =>
                      if negb (cont s3) then (RuneError, 1%nat)
                      else
                        (Z.lor (Z.lor (Z.lor (Z.shiftl (Z.land s0 mask4) 18)
                                             (Z.shiftl (Z.land s1 maskx) 12))
                                      (Z.shiftl (Z.land s2 maskx) 6))
                               (Z.land s3 maskx), 4%nat)
                  | [] => (RuneError, 1%nat)
                  end
            | [] => (RuneError, 1%nat)
            end
      | [] => (RuneError, 1%nat)
      end
  end.

Definition byte (r : Z) : Z := r mod 256.
Definition uint32 (r : Z) : Z := r mod 2 ^ 32.

(** [AppendRune] on an empty slice: the UTF-8 encoding of [r]; a rune out
    of range or a surrogate half is encoded as [RuneError]. *)
Definition EncodeRune (r : rune) : list Z :=
  let i := uint32 r in
  if i <=? rune1Max then [byte r]
  else if i <=? rune2Max then
    [Z.lor t2 (byte (Z.shiftr r 6)); Z.lor tx (Z.land (byte r) maskx)]
  else
    let three (r : Z) :=
      [Z.lor t3 (byte (Z.shiftr r 12));
       Z.lor tx (Z.land (byte (Z.shiftr r 6)) maskx);
       Z.lor tx (Z.land (byte r) maskx)] in
    if (MaxRune <? i) || ((surrogateMin <=? i) && (i <=? surrogateMax))
    then three RuneError
    else if i <=? rune3Max then three r
    else
      [Z.lor t4 (byte (Z.shiftr r 18));
       Z.lor tx (Z.land (byte (Z.shiftr r 12)) maskx);
       Z.lor tx (Z.land (byte (Z.shiftr r 6)) maskx);
       Z.lor tx (Z.land (byte r) maskx)].

(** A code point that UTF-8 encodes as itself. *)
Definition ValidRune (r : rune) : Prop :=
  (0 <= r < surrogateMin) \/ (surrogateMax < r <= MaxRune).

Definition encode_runes (rs : list rune) : list Z :=
  flat_map EncodeRune rs.

End utf8.

(** ** [for i, c := range s]

    The loop visits the byte offset and the value of each code point of the
    string; an invalid sequence yields [RuneError] and advances one byte.
    [skip] counts the bytes of the rune in progress that are still to pass. *)
Fixpoint range_from (i : nat) (skip : nat) (s : list Z) : list (nat * rune) :=
  match s with
  | [] => []
  | s0 :: rest =>
      match skip with
      | S k => range_from (S i) k rest
      | O =>
          let '(r, size) := utf8.DecodeRune s0 rest in
          (i, r) :: range_from (S i) (size - 1) rest
      end
  end.

Definition range_string (s : string) : list (nat * rune) :=
  range_from 0 0 (bytes_of_string s).

(** The code points of a string, as the loop sees them. *)
Definition runes (s : string) : list rune := map snd (range_string s).

(** ** Package [unicode]: [ToTitle]

    [ToTitle] answers for ASCII itself and consults the case tables of the
    Unicode database for the rest; the tables are the argument [table]
    ([To(TitleCase, r)] of the library). *)
Module unicode.

Definition MaxASCII : rune := 0x7F.

Definition ToTitle (table : rune -> rune) (r : rune) : rune :=
  if r <=? MaxASCII then
    if (97 <=? r) && (r <=? 122) then r - (97 - 65) else r
  else table r.

(** The title-case mapping of the Latin-1 Supplement block: the letters
    U+00E0..U+00FE (but the division sign U+00F7) lie 32 above their
    capitals, U+00FF maps to U+0178 and the micro sign to U+039C. *)
Definition Latin1Title (r : rune) : rune :=
  if (0xE0 <=? r) && (r <=? 0xFE) && negb (r =? 0xF7) then r - 32
  else if r =? 0xFF then 0x178
  else if r =? 0xB5 then 0x39C
  else r.

End unicode.

(** ** [bytes.Buffer] *)
Module Buffer.
Definition t : Type := list Z.
Definition empty : t := [].
Definition Len (b : t) : nat := length b.
Definition WriteByte (b : t) (c : Z) : t := b ++ [c].
Definition WriteRune (b : t) (r : rune) : t := b ++ utf8.EncodeRune r.
Definition WriteString (b : t) (s : string) : t := b ++ bytes_of_string s.
Definition String (b : t) : string := string_of_bytes b.
End Buffer.

(** ** [goTitleCase] *)

Definition SPACE : rune := 32.
Definition UNDERSCORE : rune := 95.

Section GoTitleCase.

Variable table : rune -> rune.

(** One turn of the loop over [(i, c)]: the state is the buffer and
    [titlecaseNext]. *)
Definition goTitleCase_step (st : Buffer.t * bool) (ic : nat * rune)
  : Buffer.t * bool :=
  let '(buf, titlecaseNext) := st in
  let '(i, c) := ic in
  let '(c, titlecaseNext) :=
    if (i =? 0)%nat || titlecaseNext
    then (unicode.ToTitle table c, false)
    else (c, titlecaseNext) in
  if c =? SPACE then (Buffer.WriteRune buf c, true)
  else if c =? UNDERSCORE then (buf, true)
  else (Buffer.WriteRune buf c, titlecaseNext).

Definition goTitleCase (s : string) : string :=
  if String.eqb s "id" then "ID"
  else
    Buffer.String
      (fst (fold_left goTitleCase_step (range_string s) (Buffer.empty, false))).

End GoTitleCase.

(** ** The caser as the specification words it

    The first character and every character that follows a space or an
    underscore is upper-cased ([ToTitle]), then the underscores are removed.
    [title_spec] works on code points; [goTitleCase] is compared with it. *)

Definition is_separator (c : rune) : bool :=
  (c =? SPACE) || (c =? UNDERSCORE).

Fixpoint upper_after_separator (table : rune -> rune) (after : bool)
  (rs : list rune) : list rune :=
  match rs with
  | [] => []
  | c :: rest =>
      (if after then unicode.ToTitle table c else c)
        :: upper_after_separator table (is_separator c) rest
  end.

Definition title_spec (table : rune -> rune) (rs : list rune) : list rune :=
  List.filter (fun c => negb (c =? UNDERSCORE))
    (upper_after_separator table true rs).

Definition string_of_runes (rs : list rune) : string :=
  string_of_bytes (utf8.encode_runes rs).

(** What the properties ask of the case tables: a code point beyond ASCII
    maps to a code point, and never to a space or an underscore (neither has
    a lower-case form). *)
Definition title_table_ok (table : rune -> rune) : Prop :=
  forall r, unicode.MaxASCII < r <= utf8.MaxRune ->
    0 <= table r <= utf8.MaxRune /\ table r <> SPACE /\ table r <> UNDERSCORE.

(** The string of [n] copies of a character. *)
Fixpoint replicate_string (n : nat) (c : ascii) : string :=
  match n with
  | O => EmptyString
  | S k => String c (replicate_string k c)
  end.

(** A string of separators: a space for [true], an underscore for [false]. *)
Fixpoint separators (l : list bool) : string :=
  match l with
  | [] => EmptyString
  | b :: rest =>
      String (if b then " "%char else "_"%char) (separators rest)
  end.

(** ** Package [nodes] of pg_query_go: the parse tree

    The node kinds the program inspects, with the fields it reads.  A
    pointer field is an [option] ([None] is nil).  [Nil] is the nil
    interface value and [Other T] a node of any other type, [T] being what
    the verb %T prints for it. *)
Module nodes.

Record RangeVar : Type := { Relname : option string }.

Inductive Node : Type :=
| Nil
| RawStmt (Stmt : Node)
| CreateStmt (Relation : option RangeVar) (TableElts : list Node)
| ColumnDef (Colname : option string) (TypeName : option (list Node))
| String (Str : string)
| Other (T : string).

(** The value of a [CreateStmt], as the slice [createTables] holds it. *)
Record CreateStmtValue : Type :=
  { Relation : option RangeVar; TableElts : list Node }.

(** What [%T] prints. *)
Definition TypeName_of (n : Node) : string :=
  match n with
  | Nil => "<nil>"
  | RawStmt _ => "nodes.RawStmt"
  | CreateStmt _ _ => "nodes.CreateStmt"
  | ColumnDef _ _ => "nodes.ColumnDef"
  | String _ => "nodes.String"
  | Other T => T
  end.

End nodes.

(** ** The template data *)

Record Column : Type := { Column_Name : string; Column_Type : string }.
Record Table : Type := { Table_Name : string; Table_Columns : list Column }.
Record Data : Type := { Data_Package : string; Data_Tables : list Table }.

(** ** Effects: the log and the nil dereference

    A computation takes the lines logged so far and returns its outcome with
    the lines logged since; [Panicked] is a run-time panic (here always a
    nil pointer dereference), which ends the program. *)

Inductive result (A : Type) : Type :=
| Ok (a : A)
| Panicked.
Arguments Ok {A} a.
Arguments Panicked {A}.

Definition M (A : Type) : Type := list string -> result A * list string.

Definition ret {A : Type} (a : A) : M A := fun log => (Ok a, log).

Definition bind {A B : Type} (c : M A) (k : A -> M B) : M B :=
  fun log =>
    match c log with
    | (Ok a, log') => k a log'
    | (Panicked, log') => (Panicked, log')
    end.

Notation "x <- c ;; k" := (bind c (fun x => k))
  (at level 100, c at next level, right associativity).

(** [log.Printf]: one line on the logger (the time stamp is left out). *)
Definition log_Printf (line : string) : M unit :=
  fun log => (Ok tt, log ++ [line]).

(** [*p] *)
Definition deref {A : Type} (p : option A) : M A :=
  fun log =>
    match p with
    | Some a => (Ok a, log)
    | None => (Panicked, log)
    end.

(** ** [toString] *)

Definition toString_body (buf : Buffer.t) (n : nodes.Node) : M Buffer.t :=
  match n with
  | nodes.String str =>
      let buf :=
        if negb (Buffer.Len buf =? 0)%nat then Buffer.WriteByte buf SPACE
        else buf in
      ret (Buffer.WriteString buf str)
  | _ =>
      _ <- log_Printf ("unhandled node type: " +:+ nodes.TypeName_of n) ;;
      ret buf
  end.

Fixpoint toString_loop (nod : list nodes.Node) (buf : Buffer.t) : M Buffer.t :=
  match nod with
  | [] => ret buf
  | n :: rest => buf <- toString_body buf n ;; toString_loop rest buf
  end.

Definition toString (nod : list nodes.Node) : M string :=
  buf <- toString_loop nod Buffer.empty ;; ret (Buffer.String buf).

(** ** Package [strings]: [Split] with a separator of one byte *)
Module strings.

Fixpoint Split (s : string) (sep : ascii) : list string :=
  match s with
  | EmptyString => [EmptyString]
  | String c rest =>
      if Ascii.eqb c sep then EmptyString :: Split rest sep
      else
        match Split rest sep with
        | part :: parts => String c part :: parts
        | [] => [String c EmptyString]
        end
  end.

End strings.

(** ** [main]: from the statements to the template data *)

(** Lines 73-86: the walk that looks for CREATE TABLE statements. *)
Definition createTables_body (createTables : list nodes.CreateStmtValue)
  (n : nodes.Node) : M (list nodes.CreateStmtValue) :=
  match n with
  | nodes.RawStmt stmt =>
      match stmt with
      | nodes.CreateStmt relation elts =>
          ret (createTables ++
               [{| nodes.Relation := relation; nodes.TableElts := elts |}])
      | _ => ret createTables
      end
  | nodes.CreateStmt relation elts =>
      ret (createTables ++
           [{| nodes.Relation := relation; nodes.TableElts := elts |}])
  | _ =>
      _ <- log_Printf ("unexpected statement type " +:+ nodes.TypeName_of n) ;;
      ret createTables
  end.

Fixpoint createTables_loop (stmts : list nodes.Node)
  (createTables : list nodes.CreateStmtValue) : M (list nodes.CreateStmtValue) :=
  match stmts with
  | [] => ret createTables
  | n :: rest =>
      createTables <- createTables_body createTables n ;;
      createTables_loop rest createTables
  end.

(** Lines 88-93: the map [tables] built from the flag [-tables]. *)
Definition tables (matchTables : string) : gmap string bool :=
  if negb (String.eqb matchTables "") then
    fold_left (fun (tables : gmap string bool) table => <[table := true]> tables)
      (strings.Split matchTables ","%char) ∅
  else ∅.

(** [tables[tableName]]: a key that is absent reads as [false]. *)
Definition map_index (tables : gmap string bool) (key : string) : bool :=
  default false (tables !! key).

(** Lines 108-119: the columns of one table. *)
Fixpoint columns_loop (items : list nodes.Node) (columns : list Column)
  : M (list Column) :=
  match items with
  | [] => ret columns
  | col :: rest =>
      match col with
      | nodes.ColumnDef colname typeName =>
          name <- deref colname ;;
          names <- deref typeName ;;
          type <- toString names ;;
          columns_loop rest
            (columns ++ [{| Column_Name := name; Column_Type := type |}])
      | _ => columns_loop rest columns
      end
  end.

(** Lines 99-121: the tables of the template data. *)
Fixpoint tables_loop (createTables : list nodes.CreateStmtValue)
  (tables : gmap string bool) (data_Tables : list Table) : M (list Table) :=
  match createTables with
  | [] => ret data_Tables
  | s :: rest =>
      relation <- deref (nodes.Relation s) ;;
      tableName <- deref (nodes.Relname relation) ;;
      if (0 <? size tables)%nat && negb (map_index tables tableName) then
        tables_loop rest tables data_Tables
      else
        columns <- columns_loop (nodes.TableElts s) [] ;;
        tables_loop rest tables
          (data_Tables ++
           [{| Table_Name := tableName; Table_Columns := columns |}])
  end.

(** Lines 72-121. *)
Definition extract (stmts : list nodes.Node) (matchTables : string)
  : M (list Table) :=
  createTables <- createTables_loop stmts [] ;;
  tables_loop createTables (tables matchTables) [].

(** ** What the specification says of the renderer and of the extractor *)

(** The texts of the string literals among the parts, in order. *)
Definition literal_of (n : nodes.Node) : option string :=
  match n with
  | nodes.String str => Some str
  | _ => None
  end.

Definition literals (nod : list nodes.Node) : list string :=
  omap literal_of nod.

(** The lines logged for the parts that are no string literal, in order. *)
Definition unhandled (nod : list nodes.Node) : list string :=
  omap (fun n =>
          match literal_of n with
          | Some _ => None
          | None => Some ("unhandled node type: " +:+ nodes.TypeName_of n)
          end) nod.

(** The list without the empty strings at its head. *)
Fixpoint drop_empty (l : list string) : list string :=
  match l with
  | [] => []
  | s :: rest => if String.eqb s "" then drop_empty rest else l
  end.

(** The table-creation statement a statement is or wraps. *)
Definition create_of (n : nodes.Node) : option nodes.CreateStmtValue :=
  match n with
  | nodes.RawStmt (nodes.CreateStmt relation elts)
  | nodes.CreateStmt relation elts =>
      Some {| nodes.Relation := relation; nodes.TableElts := elts |}
  | _ => None
  end.

Definition creates (stmts : list nodes.Node) : list nodes.CreateStmtValue :=
  omap create_of stmts.

(** The lines logged by the walk over the statements, in order. *)
Definition unexpected_of (n : nodes.Node) : option string :=
  match n with
  | nodes.RawStmt _ | nodes.CreateStmt _ _ => None
  | _ => Some ("unexpected statement type " +:+ nodes.TypeName_of n)
  end.

Definition unexpected (stmts : list nodes.Node) : list string :=
  omap unexpected_of stmts.

Definition relname_of (s : nodes.CreateStmtValue) : option string :=
  match nodes.Relation s with
  | Some relation => nodes.Relname relation
  | None => None
  end.

(** The column an element declares, when it is a column definition. *)
Definition column_of (n : nodes.Node) : option Column :=
  match n with
  | nodes.ColumnDef (Some name) (Some names) =>
      Some {| Column_Name := name;
              Column_Type := String.concat " " (drop_empty (literals names)) |}
  | _ => None
  end.

Definition is_ColumnDef (n : nodes.Node) : bool :=
  match n with
  | nodes.ColumnDef _ _ => true
  | _ => false
  end.

Definition table_of (s : nodes.CreateStmtValue) : option Table :=
  match relname_of s with
  | Some name =>
      Some {| Table_Name := name;
              Table_Columns := omap column_of (nodes.TableElts s) |}
  | None => None
  end.

(** A statement as the parser fills it for CREATE TABLE: the relation and
    its name are there, and so are the name and the type name of each
    column definition. *)
Definition populated_element (n : nodes.Node) : bool :=
  match n with
  | nodes.ColumnDef (Some _) (Some _) => true
  | nodes.ColumnDef _ _ => false
  | _ => true
  end.

Definition populated (s : nodes.CreateStmtValue) : bool :=
  match relname_of s with
  | Some _ => forallb populated_element (nodes.TableElts s)
  | None => false
  end.

(** The allowlist lets a name pass when it is empty or holds the name. *)
Definition passes (allow : gmap string bool) (name : string) : bool :=
  negb ((0 <? size allow)%nat && negb (map_index allow name)).

Definition passes_create (allow : gmap string bool)
  (s : nodes.CreateStmtValue) : bool :=
  match relname_of s with
  | Some name => passes allow name
  | None => false
  end.

Definition spec_tables (stmts : list nodes.Node) (allow : gmap string bool)
  : list Table :=
  omap table_of (List.filter (passes_create allow) (creates stmts)).

(** The lines [toString] logs while the columns of the elements are read. *)
Definition columns_log (items : list nodes.Node) : list string :=
  flat_map (fun n =>
              match n with
              | nodes.ColumnDef _ (Some names) => unhandled names
              | _ => []
              end) items.

Definition tables_log (allow : gmap string bool)
  (createTables : list nodes.CreateStmtValue) : list string :=
  flat_map (fun s => columns_log (nodes.TableElts s))
    (List.filter (passes_create allow) createTables).

(** The parts after the first, each behind its space. *)
Definition spaced (l : list string) : list Z :=
  flat_map (fun s => SPACE :: bytes_of_string s) l.

(** A computation that only adds lines to the log, whatever its outcome. *)
Definition appends {A : Type} (c : M A) : Prop :=
  forall log, c log = (fst (c []), log ++ snd (c [])).

(** ** Statements used as examples

    [CREATE TABLE users (id int4, PRIMARY KEY (id), email text)], an INSERT,
    [CREATE TABLE posts (id int4)] and a second [users], as the parser
    returns them (wrapped in a [RawStmt]) and bare. *)

Definition relation (name : string) : option nodes.RangeVar :=
  Some {| nodes.Relname := Some name |}.

Definition column (name : string) (type : list string) : nodes.Node :=
  nodes.ColumnDef (Some name) (Some (map nodes.String type)).

Definition create_users : nodes.Node :=
  nodes.CreateStmt (relation "users")
    [column "id" ["pg_catalog"; "int4"];
     nodes.Other "nodes.Constraint";
     column "email" ["text"]].

Definition create_posts : nodes.Node :=
  nodes.CreateStmt (relation "posts") [column "id" ["pg_catalog"; "int4"]].

Definition create_users_again : nodes.Node :=
  nodes.CreateStmt (relation "users") [column "name" ["text"]].

Definition insert_stmt : nodes.Node := nodes.Other "nodes.InsertStmt".

Definition schema : list nodes.Node :=
  [nodes.RawStmt create_users; nodes.RawStmt insert_stmt;
   nodes.RawStmt create_posts; create_users_again].

Definition users_table : Table :=
  {| Table_Name := "users";
     Table_Columns :=
       [{| Column_Name := "id"; Column_Type := "pg_catalog int4" |};
        {| Column_Name := "email"; Column_Type := "text" |}] |}.

Definition posts_table : Table :=
  {| Table_Name := "posts";
     Table_Columns :=
       [{| Column_Name := "id"; Column_Type := "pg_catalog int4" |}] |}.

Definition users_again_table : Table :=
  {| Table_Name := "users";
     Table_Columns := [{| Column_Name := "name"; Column_Type := "text" |}] |}.


(** ** Package [text/template], the fragment the default template uses

    Text, the actions [{{.Field}}], [{{.}}] and [{{Func .Field}}], and
    [{{range .Field}} ... {{end}}], with the trim markers [{{- ] and [ -}}].
    A template that uses anything else is [Outside] this model. *)
Module template.

(** *** The values a template sees *)
Inductive Value : Type :=
| VString (s : string)
| VSlice (items : list Value)
| VStruct (fields : list (string * Value)).

(** [FuncMap] *)
Definition FuncMap : Type := gmap string (string -> string).

(** *** The lexer *)

Definition is_space (c : ascii) : bool :=
  Ascii.eqb c " " || Ascii.eqb c (ascii_of_nat 9)
  || Ascii.eqb c (ascii_of_nat 13) || Ascii.eqb c (ascii_of_nat 10).

Fixpoint ltrim (s : string) : string :=
  match s with
  | String c rest => if is_space c then ltrim rest else s
  | EmptyString => EmptyString
  end.

Fixpoint rtrim (s : string) : string :=
  match s with
  | EmptyString => EmptyString
  | String c rest =>
      match rtrim rest with
      | EmptyString => if is_space c then EmptyString else String c EmptyString
      | rest' => String c rest'
      end
  end.

Inductive item : Type :=
| itemText (s : string)
| itemAction (body : string).

Definition snoc (s : string) (c : ascii) : string := s +:+ String c EmptyString.

(** [lex s in_action cur trim]: [cur] is the text or the action read so
    far, [trim] says that the action before the text ended in [ -}}].
    [None]: an action is not closed. *)
Fixpoint lex (s : string) (in_action : bool) (cur : string) (trim : bool)
  : option (list item) :=
  let text (cur : string) := if trim then ltrim cur else cur in
  match s with
  | EmptyString =>
      if in_action then None else Some [itemText (text cur)]
  | String c rest =>
      if in_action then
        match s with
        | String "}" (String "}" rest2) =>
            option_map (cons (itemAction cur)) (lex rest2 false "" false)
        | String c0 (String "-" (String "}" (String "}" rest4))) =>
            if is_space c0 then
              option_map (cons (itemAction cur)) (lex rest4 false "" true)
            else lex rest true (snoc cur c) false
        | _ => lex rest true (snoc cur c) false
        end
      else
        match s with
        | String "{" (String "{" (String "-" (String c3 rest3 as after))) =>
            if is_space c3 then
              option_map (cons (itemText (rtrim (text cur))))
                (lex after true "" false)
            else
              option_map (cons (itemText (text cur)))
                (lex after true "-" false)
        | String "{" (String "{" rest2) =>
            option_map (cons (itemText (text cur))) (lex rest2 true "" false)
        | _ => lex rest false (snoc cur c) trim
        end
  end.

(** The words of an action. *)
Fixpoint words (s : string) (cur : string) : list string :=
  let flush (rest : list string) :=
    match cur with EmptyString => rest | _ => cur :: rest end in
  match s with
  | EmptyString => flush []
  | String c rest =>
      if is_space c then
        match cur with
        | EmptyString => words rest ""
        | _ => cur :: words rest ""
        end
      else words rest (snoc cur c)
  end.

(** *** The parser *)

Inductive Pipe : Type :=
| PDot
| PField (name : string)
| PCall (func : string) (arg : Pipe).

Inductive Node : Type :=
| TextNode (text : string)
| ActionNode (pipe : Pipe)
| RangeNode (pipe : Pipe) (body : list Node).

Definition is_letter (c : ascii) : bool :=
  let n := nat_of_ascii c in
  ((65 <=? n) && (n <=? 90) || (97 <=? n) && (n <=? 122) || (n =? 95))%nat.

Definition is_digit (c : ascii) : bool :=
  let n := nat_of_ascii c in ((48 <=? n) && (n <=? 57))%nat.

Definition is_identifier (s : string) : bool :=
  match s with
  | EmptyString => false
  | String c rest =>
      is_letter c
      && forallb (fun c => is_letter c || is_digit c) (list_ascii_of_string rest)
  end.

(** The words the language keeps for itself, and its own functions. *)
Definition reserved : list string :=
  ["if"; "else"; "with"; "define"; "template"; "block"; "break"; "continue";
   "nil"; "true"; "false"; "and"; "or"; "not"; "len"; "index"; "slice";
   "print"; "printf"; "println"; "html"; "js"; "urlquery"; "call";
   "eq"; "ne"; "lt"; "le"; "gt"; "ge"].

Definition operand (w : string) : option Pipe :=
  match w with
  | String "." EmptyString => Some PDot
  | String "." name => if is_identifier name then Some (PField name) else None
  | _ => None
  end.

Inductive action : Type :=
| ActPipe (p : Pipe)
| ActRange (p : Pipe)
| ActEnd
| ActUndefined (func : string)
| ActOutside.

Definition parse_action (funcs : FuncMap) (ws : list string) : action :=
  match ws with
  | ["end"] => ActEnd
  | ["range"; w] =>
      match operand w with Some p => ActRange p | None => ActOutside end
  | [w] => match operand w with Some p => ActPipe p | None => ActOutside end
  | [f; w] =>
      match operand w with
      | Some p =>
          if negb (is_identifier f) || bool_decide (f ∈ reserved) then ActOutside
          else
            match funcs !! f with
            | Some _ => ActPipe (PCall f p)
            | None => ActUndefined f
            end
      | None => ActOutside
      end
  | _ => ActOutside
  end.

Inductive ParseOutcome : Type :=
| Parsed (tree : list Node)
| ParseFailed (err : string)
| ParseOutside.

(** [stack] holds, for each [range] that is open, its pipeline and the
    nodes read before it. *)
Fixpoint parse_items (funcs : FuncMap) (items : list item)
  (stack : list (Pipe * list Node)) (cur : list Node) : ParseOutcome :=
  match items with
  | [] =>
      match stack with
      | [] => Parsed cur
      | _ :: _ => ParseFailed "unexpected EOF"
      end
  | itemText text :: rest =>
      parse_items funcs rest stack
        (match text with EmptyString => cur | _ => cur ++ [TextNode text] end)
  | itemAction body :: rest =>
      match parse_action funcs (words body "") with
      | ActPipe p => parse_items funcs rest stack (cur ++ [ActionNode p])
      | ActRange p => parse_items funcs rest ((p, cur) :: stack) []
      | ActEnd =>
          match stack with
          | (p, outer) :: stack' =>
              parse_items funcs rest stack' (outer ++ [RangeNode p cur])
          | [] => ParseFailed "unexpected {{end}}"
          end
      | ActUndefined f => ParseFailed ("function " +:+ f +:+ " not defined")
      | ActOutside => ParseOutside
      end
  end.

(** [template.New("").Funcs(funcs).Parse(text)] *)
Definition Parse (funcs : FuncMap) (text : string) : ParseOutcome :=
  match lex text false "" false with
  | Some items => parse_items funcs items [] []
  | None => ParseFailed "unclosed action"
  end.

(** *** Execution *)

(** What has been written, and how the execution ended. *)
Inductive ending : Type :=
| Finished
| ExecFailed (err : string)
| ExecOutside.

Definition ExecOutcome : Type := string * ending.

Definition then_ (a : ExecOutcome) (b : unit -> ExecOutcome) : ExecOutcome :=
  match a with
  | (out, Finished) => let '(out', e) := b tt in (out +:+ out', e)
  | _ => a
  end.

Fixpoint field (name : string) (fields : list (string * Value)) : option Value :=
  match fields with
  | [] => None
  | (n, v) :: rest => if String.eqb n name then Some v else field name rest
  end.

Inductive evaluated : Type :=
| Val (v : Value)
| EvalFailed (err : string)
| EvalOutside.

Fixpoint eval (funcs : FuncMap) (p : Pipe) (dot : Value) : evaluated :=
  match p with
  | PDot => Val dot
  | PField name =>
      match dot with
      | VStruct fields =>
          match field name fields with
          | Some v => Val v
          | None => EvalFailed ("can't evaluate field " +:+ name)
          end
      | _ => EvalFailed ("can't evaluate field " +:+ name)
      end
  | PCall f arg =>
      match eval funcs arg dot with
      | Val (VString s) =>
          match funcs !! f with
          | Some fn => Val (VString (fn s))
          | None => EvalFailed ("function " +:+ f +:+ " not defined")
          end
      | Val _ => EvalFailed ("wrong type for value; expected string")
      | other => other
      end
  end.

Fixpoint exec (funcs : FuncMap) (n : Node) (dot : Value) {struct n}
  : ExecOutcome :=
  match n with
  | TextNode text => (text, Finished)
  | ActionNode p =>
      match eval funcs p dot with
      | Val (VString s) => (s, Finished)
      | Val _ => ("", ExecOutside)
      | EvalFailed err => ("", ExecFailed err)
      | EvalOutside => ("", ExecOutside)
      end
  | RangeNode p body =>
      let exec_body (dot : Value) : ExecOutcome :=
        (fix walk (ns : list Node) : ExecOutcome :=
           match ns with
           | [] => ("", Finished)
           | n :: rest => then_ (exec funcs n dot) (fun _ => walk rest)
           end) body in
      match eval funcs p dot with
      | Val (VSlice items) =>
          (fix each (vs : list Value) : ExecOutcome :=
             match vs with
             | [] => ("", Finished)
             | v :: rest => then_ (exec_body v) (fun _ => each rest)
             end) items
      | Val _ => ("", ExecOutside)
      | EvalFailed err => ("", ExecFailed err)
      | EvalOutside => ("", ExecOutside)
      end
  end.

Fixpoint exec_list (funcs : FuncMap) (ns : list Node) (dot : Value)
  : ExecOutcome :=
  match ns with
  | [] => ("", Finished)
  | n :: rest => then_ (exec funcs n dot) (fun _ => exec_list funcs rest dot)
  end.

(** [tmpl.Execute(&buf, data)] *)
Definition Execute (funcs : FuncMap) (tree : list Node) (data : Value)
  : ExecOutcome :=
  exec_list funcs tree data.

End template.

(** ** The default template and the data it is given *)

Definition gencodeTmpl : string :=
  String.concat ""
    ["// Code generated by pgsqlconsts; DO NOT EDIT."; NL;
     "package {{.Package}}"; NL;
     NL;
     "{{range .Tables}}"; NL;
     "// {{GoTitle .Name}} contains constants for the {{.Name}} table"; NL;
     "var {{GoTitle .Name}} = struct{"; NL;
     TAB; "TableName string"; NL;
     TAB; "{{- range .Columns}}"; NL;
     TAB; "{{GoTitle .Name}} string // {{.Type}}"; NL;
     TAB; "{{- end}}"; NL;
     "}{"; DQ; "{{.Name}}"; DQ; ",{{range .Columns}}"; DQ; "{{.Name}}"; DQ;
       ",{{end}} }"; NL;
     "{{end}}"; NL].

Definition Column_value (c : Column) : template.Value :=
  template.VStruct
    [("Name", template.VString (Column_Name c));
     ("Type", template.VString (Column_Type c))].

Definition Table_value (t : Table) : template.Value :=
  template.VStruct
    [("Name", template.VString (Table_Name t));
     ("Columns", template.VSlice (map Column_value (Table_Columns t)))].

Definition Data_value (d : Data) : template.Value :=
  template.VStruct
    [("Package", template.VString (Data_Package d));
     ("Tables", template.VSlice (map Table_value (Data_Tables d)))].

(** ** [main]

    The world of a run is the files, what has been written to the standard
    output, and the writes to the standard error (the lines of the logger,
    without their time stamp, and the text copied there).  The libraries the
    program calls are arguments of the model: the case tables of [unicode],
    [strings.Title], [strings.ToUpper] and [strings.ToLower], the SQL parser,
    the template engine and the formatter of Go source.  A write, once the
    file is there, is taken to succeed. *)

Record World : Type :=
  { files : gmap string string; stdout : string; stderr : list string }.

Definition write_stderr (w : World) (lines : list string) : World :=
  {| files := files w; stdout := stdout w; stderr := stderr w ++ lines |}.

Definition write_stdout (w : World) (text : string) : World :=
  {| files := files w; stdout := stdout w +:+ text; stderr := stderr w |}.

Definition write_file (w : World) (path text : string) : World :=
  {| files := <[path := text]> (files w); stdout := stdout w;
     stderr := stderr w |}.

(** How a run ends: [main] returns, the program exits with a status
    ([log.Fatalf] and the usage message exit with 1), it panics, or it
    leaves the fragment of the template language that is modelled. *)
Inductive Exit : Type :=
| Returned
| Exited (code : Z)
| Panic
| Unmodelled.

(** A step of [main]: the world after it, and its value or the end of the
    run. *)
Definition step (A : Type) : Type := World * (A + Exit).

Definition continue {A : Type} (w : World) (a : A) : step A := (w, inl a).
Definition stop {A : Type} (w : World) (e : Exit) : step A := (w, inr e).

(** [log.Fatalf] *)
Definition log_Fatalf {A : Type} (w : World) (line : string) : step A :=
  stop (write_stderr w [line]) (Exited 1).

Record Flags : Type :=
  { pkg : string; matchTables : string; outputFile : string;
    templateFile : string; Args : list string }.

(** The template engine. *)
Record Engine : Type :=
  { tree : Type;
    Engine_Parse : template.FuncMap -> string -> option tree + string;
    Engine_Execute : template.FuncMap -> tree -> Data -> string * template.ending }.

(** The fragment of [text/template] modelled above, as an engine:
    [inl None] is a template outside the fragment. *)
Definition fragment : Engine :=
  {| tree := list template.Node;
     Engine_Parse funcs text :=
       match template.Parse funcs text with
       | template.Parsed t => inl (Some t)
       | template.ParseFailed err => inr err
       | template.ParseOutside => inl None
       end;
     Engine_Execute funcs t data := template.Execute funcs t (Data_value data) |}.

Inductive FormatOutcome : Type :=
| Formatted (src : string)
| FormatError (err : string).

Section Main.

Variable table : rune -> rune.
Variables strings_Title strings_ToUpper strings_ToLower : string -> string.
Variable pg_query_Parse : string -> list nodes.Node + string.
Variable engine : Engine.
Variable format_Source : string -> FormatOutcome.
(** Whether [os.Create] succeeds on a path. *)
Variable os_Create : string -> bool.

(** Lines 123-127. *)
Definition funcMap : template.FuncMap :=
  <["ToLower" := strings_ToLower]>
    (<["ToUpper" := strings_ToUpper]>
       (<["GoTitle" := goTitleCase table]>
          (<["Title" := strings_Title]> ∅))).

(** Lines 54-121: the arguments, the SQL file, the statements, the data.
    The usage message stands for the line with the program name and the
    defaults of the flags. *)
Definition main_data (fl : Flags) (w : World) : step Data :=
  match Args fl with
  | [sqlFile] =>
      match files w !! sqlFile with
      | None => log_Fatalf w ("unable to open " +:+ sqlFile)
      | Some fc =>
          match pg_query_Parse fc with
          | inr err => log_Fatalf w ("error parsing sql: " +:+ err)
          | inl stmts =>
              match extract stmts (matchTables fl) [] with
              | (Panicked, log) => stop (write_stderr w log) Panic
              | (Ok data_Tables, log) =>
                  continue (write_stderr w log)
                    {| Data_Package := pkg fl; Data_Tables := data_Tables |}
              end
          end
      end
  | _ => stop (write_stderr w ["Usage: pgsqlconsts [OPTION]... [SQLFILE]"])
              (Exited 1)
  end.

(** Lines 129-136. *)
Definition main_templateText (fl : Flags) (w : World) : step string :=
  if negb (String.eqb (templateFile fl) "") then
    match files w !! templateFile fl with
    | None => log_Fatalf w "unable to read template file"
    | Some d => continue w d
    end
  else continue w gencodeTmpl.

(** Lines 138-145: the rendered text. *)
Definition main_render (templateText : string) (data : Data) (w : World)
  : step string :=
  match Engine_Parse engine funcMap templateText with
  | inr err => log_Fatalf w ("unable to parse template: " +:+ err)
  | inl None => stop w Unmodelled
  | inl (Some tmpl) =>
      match Engine_Execute engine funcMap tmpl data with
      | (buf, template.Finished) => continue w buf
      | (_, template.ExecFailed err) =>
          log_Fatalf w ("error executing template: " +:+ err)
      | (_, template.ExecOutside) => stop w Unmodelled
      end
  end.

(** Lines 146-150: the formatter; the text it refuses is copied to the
    standard error. *)
Definition main_format (buf : string) (w : World) : step string :=
  match format_Source buf with
  | Formatted formatted => continue w formatted
  | FormatError err =>
      log_Fatalf (write_stderr w [buf]) ("generated bad code: " +:+ err)
  end.

(** Lines 152-161: the destination. *)
Definition main_write (fl : Flags) (formatted : string) (w : World)
  : step unit :=
  if negb (String.eqb (outputFile fl) "") then
    if os_Create (outputFile fl) then
      continue (write_file w (outputFile fl) formatted) tt
    else log_Fatalf w "error creating output file"
  else continue (write_stdout w formatted) tt.

Definition and_then {A B : Type} (s : step A) (k : A -> World -> step B)
  : step B :=
  match s with
  | (w, inl a) => k a w
  | (w, inr e) => (w, inr e)
  end.

Definition main (fl : Flags) (w : World) : World * Exit :=
  let run :=
    and_then (main_data fl w) (fun data w =>
    and_then (main_templateText fl w) (fun templateText w =>
    and_then (main_render templateText data w) (fun buf w =>
    and_then (main_format buf w) (fun formatted w =>
    main_write fl formatted w)))) in
  match run with
  | (w, inl tt) => (w, Returned)
  | (w, inr e) => (w, e)
  end.

End Main.

(** ** The text the default template renders *)

(** For no table at all: the header and the package clause. *)
Definition header_source (package : string) : string :=
  "// Code generated by pgsqlconsts; DO NOT EDIT." +:+ NL
  +:+ "package " +:+ package +:+ NL +:+ NL +:+ NL.

(** For the table [users] with the columns [id int4] and [email text] in
    the package [models]. *)
Definition models_data : Data :=
  {| Data_Package := "models";
     Data_Tables :=
       [{| Table_Name := "users";
           Table_Columns :=
             [{| Column_Name := "id"; Column_Type := "int4" |};
              {| Column_Name := "email"; Column_Type := "text" |}] |}] |}.

Definition models_source : string :=
  String.concat ""
    ["// Code generated by pgsqlconsts; DO NOT EDIT."; NL;
     "package models"; NL;
     NL;
     NL;
     "// Users contains constants for the users table"; NL;
     "var Users = struct{"; NL;
     TAB; "TableName string"; NL;
     TAB; "ID string // int4"; NL;
     TAB; "Email string // text"; NL;
     "}{"; DQ; "users"; DQ; ","; DQ; "id"; DQ; ","; DQ; "email"; DQ; ", }"; NL;
     NL].

(** The output of a run is untouched: the files and the standard output of
    [w'] are those of [w]. *)
Definition same_output (w w' : World) : Prop :=
  files w' = files w /\ stdout w' = stdout w.

(** The formatter of the examples: it takes every text but the empty one
    and returns it as it is. *)
Definition accept_all (src : string) : FormatOutcome :=
  match src with
  | EmptyString => FormatError "expected 'package'"
  | _ => Formatted src
  end.

(** A world with the file [schema.sql], and a parser that reads [schema]
    from it. *)
Definition schema_world : World :=
  {| files := {[ "schema.sql" := "CREATE TABLE users (...); ..." ]};
     stdout := ""; stderr := [] |}.

Definition schema_parser (sql : string) : list nodes.Node + string :=
  if String.eqb sql "CREATE TABLE users (...); ..." then inl schema
  else inr "syntax error".

(** [needle] occurs in [text]. *)
Definition contains (text needle : string) : bool :=
  match String.index 0 needle text with
  | Some _ => true
  | None => false
  end.

(** A formatter that refuses every text. *)
Definition refuse_all (src : string) : FormatOutcome :=
  FormatError "expected declaration".

(** A world with the schema and two templates: one whose [range] is not
    closed, one that renders text that is no Go source. *)
Definition template_world : World :=
  {| files :=
       <["broken.tmpl" := "{{range .Tables}}"]>
         (<["prose.tmpl" := "tables of {{.Package}}"]>
            (files schema_world));
     stdout := ""; stderr := [] |}.

Definition flags (matchTables outputFile templateFile : string) : Flags :=
  {| pkg := "models"; matchTables := matchTables; outputFile := outputFile;
     templateFile := templateFile; Args := ["schema.sql"] |}.

(** ** Package [go/format], the fragment the default template needs

    [format.Source] parses a Go source file and prints it in the canonical
    layout of [gofmt].  The fragment: a file of lines that end in a newline
    with, in this order, comment lines at column 1, the package clause on a
    line of its own, and declarations [var X = struct{ ... }{ ... }] laid
    out as the default template lays them out: one or more blank lines, one
    or more comment lines, the line of [var], one line for each field (a
    name, the type [string] and maybe a comment) and the line that closes
    the struct type and holds the values, string literals on one line.
    The spaces and tabs between the tokens of a line are free.  Of the
    texts that the parser refuses the fragment has one kind, the file that
    ends after the word [package].  Every other text is outside the
    fragment. *)
Module format.

(** *** The scanner, on one line *)

Inductive token : Type :=
| IDENT (name : string)
| KEYWORD (name : string)
| STRING (text : string)
| ASSIGN
| LBRACE
| RBRACE
| COMMA
| COMMENT (text : string).

Definition keywords : list string :=
  ["break"; "default"; "func"; "interface"; "select"; "case"; "defer"; "go";
   "map"; "struct"; "chan"; "else"; "goto"; "package"; "switch"; "const";
   "fallthrough"; "if"; "range"; "type"; "continue"; "for"; "import";
   "return"; "var"].

Definition word (s : string) : token :=
  if bool_decide (s ∈ keywords) then KEYWORD s else IDENT s.

(** The letters and digits of ASCII; a character beyond ASCII is outside
    the fragment. *)
Definition is_letter (c : ascii) : bool :=
  let n := nat_of_ascii c in
  ((65 <=? n) && (n <=? 90) || (97 <=? n) && (n <=? 122) || (n =? 95))%nat.

Definition is_digit (c : ascii) : bool :=
  let n := nat_of_ascii c in ((48 <=? n) && (n <=? 57))%nat.

Definition is_blank (c : ascii) : bool :=
  let n := nat_of_ascii c in ((n =? 32) || (n =? 9))%nat.

Definition printable (c : ascii) : bool :=
  let n := nat_of_ascii c in ((32 <=? n) && (n <=? 126))%nat.

Definition snoc (s : string) (c : ascii) : string := s +:+ String c EmptyString.

(** The scanner is in the middle of a word ([InCode], with the letters
    read so far) or of a string literal. *)
Inductive mode : Type :=
| InCode (cur : string)
| InString (text : string).

Definition flush (cur : string) (rest : option (list token))
  : option (list token) :=
  match cur with
  | EmptyString => rest
  | _ => option_map (cons (word cur)) rest
  end.

(** [None]: a character or a token that the fragment does not have (a
    number, an operator, an escape in a string literal, a string literal
    that is not closed, a comment between [/*] and [*/]). *)
Fixpoint scan (s : string) (m : mode) : option (list token) :=
  match s with
  | EmptyString =>
      match m with
      | InCode cur => flush cur (Some [])
      | InString _ => None
      end
  | String c rest =>
      match m with
      | InString text =>
          if (nat_of_ascii c =? 34)%nat then
            option_map (cons (STRING text)) (scan rest (InCode ""))
          else if (nat_of_ascii c =? 92)%nat then None
          else if printable c then scan rest (InString (snoc text c))
          else None
      | InCode cur =>
          if is_letter c then scan rest (InCode (snoc cur c))
          else if is_digit c then
            match cur with
            | EmptyString => None
            | _ => scan rest (InCode (snoc cur c))
            end
          else
            flush cur
              (if is_blank c then scan rest (InCode "")
               else if Ascii.eqb c "{" then
                 option_map (cons LBRACE) (scan rest (InCode ""))
               else if Ascii.eqb c "}" then
                 option_map (cons RBRACE) (scan rest (InCode ""))
               else if Ascii.eqb c "," then
                 option_map (cons COMMA) (scan rest (InCode ""))
               else if Ascii.eqb c "=" then
                 match rest with
                 | String "=" _ => None
                 | _ => option_map (cons ASSIGN) (scan rest (InCode ""))
                 end
               else if (nat_of_ascii c =? 34)%nat then
                 scan rest (InString "")
               else if Ascii.eqb c "/" then
                 match rest with
                 | String "/" text =>
                     if forallb printable (list_ascii_of_string text)
                     then Some [COMMENT (String "/" (String "/" text))]
                     else None
                 | _ => None
                 end
               else None)
      end
  end.

(** An identifier of ASCII letters and digits, and a name that the package
    clause may have: an identifier that is no keyword and is not [_]. *)
Definition is_identifier (s : string) : bool :=
  match s with
  | EmptyString => false
  | String c rest =>
      is_letter c
      && forallb (fun c => is_letter c || is_digit c) (list_ascii_of_string rest)
  end.

Definition is_package_name (s : string) : bool :=
  is_identifier s && negb (bool_decide (s ∈ keywords))
  && negb (String.eqb s "_").

(** *** The lines of a file *)

(** The lines of a text in which every line ends in a newline. *)
Definition lines (src : string) : option (list string) :=
  match List.rev (strings.Split src (ascii_of_nat 10)) with
  | EmptyString :: l => Some (List.rev l)
  | _ => None
  end.

Fixpoint last_char (s : string) : option ascii :=
  match s with
  | EmptyString => None
  | String c EmptyString => Some c
  | String _ rest => last_char rest
  end.

(** A comment after a field: [// ] and printable text that does not end
    in a space ([gofmt] would cut the spaces at the end). *)
Definition comment_ok (text : string) : bool :=
  match text with
  | String "/" (String "/" (String " " (String c body))) =>
      forallb printable (c :: list_ascii_of_string body)
      && negb (bool_decide (last_char (String c body) = Some " "%char))
  | _ => false
  end.

(** A comment line above the package clause or above a declaration:
    [// ], a letter, and then letters, digits, spaces and the characters
    of [_;.,]: plain text that [gofmt] leaves as it is (it rewrites the
    headings, lists, quotes and indented lines of such comments). *)
Definition plain (c : ascii) : bool :=
  is_letter c || is_digit c
  || bool_decide (c ∈ [" "; ";"; "."; ","]%char).

Definition doc_ok (text : string) : bool :=
  match text with
  | String "/" (String "/" (String " " (String c body))) =>
      is_letter c && negb (Ascii.eqb c "_")
      && forallb plain (list_ascii_of_string body)
      && negb (bool_decide (last_char (String c body) = Some " "%char))
  | _ => false
  end.

Inductive line : Type :=
| BlankLine
| CommentLine (text : string)
| TokenLine (tokens : list token).

(** A line that starts with [//] is a line of a comment of a declaration;
    a comment behind spaces or tabs is outside the fragment. *)
Definition classify (l : string) : option line :=
  match l with
  | String "/" (String "/" _) =>
      if doc_ok l then Some (CommentLine l) else None
  | _ =>
      match scan l (InCode "") with
      | Some [] => Some BlankLine
      | Some (COMMENT _ :: _) => None
      | Some tokens => Some (TokenLine tokens)
      | None => None
      end
  end.

Fixpoint classify_all (ls : list string) : option (list line) :=
  match ls with
  | [] => Some []
  | l :: rest =>
      match classify l, classify_all rest with
      | Some x, Some xs => Some (x :: xs)
      | _, _ => None
      end
  end.

(** *** The parser *)

Record Field : Type := { Field_Name : string; Field_Comment : option string }.

Record Decl : Type :=
  { Decl_Doc : list string; Decl_Name : string; Decl_Fields : list Field;
    Decl_Values : list string }.

Record File : Type :=
  { File_Doc : list string; File_Name : string; File_Decls : list Decl }.

(** [var X = struct {] *)
Definition var_line (tokens : list token) : option string :=
  match tokens with
  | [KEYWORD k1; IDENT name; ASSIGN; KEYWORD k2; LBRACE] =>
      if String.eqb k1 "var" && String.eqb k2 "struct" then Some name
      else None
  | _ => None
  end.

(** [Name string] and [Name string // comment] *)
Definition field_line (tokens : list token) : option Field :=
  match tokens with
  | [IDENT name; IDENT type] =>
      if String.eqb type "string"
      then Some {| Field_Name := name; Field_Comment := None |}
      else None
  | [IDENT name; IDENT type; COMMENT text] =>
      if String.eqb type "string" && comment_ok text
      then Some {| Field_Name := name; Field_Comment := Some text |}
      else None
  | _ => None
  end.

(** The values after [}{]: string literals between commas, a comma after
    the last or not, and [}]. *)
Fixpoint values (tokens : list token) : option (list string) :=
  match tokens with
  | [STRING v; RBRACE] => Some [v]
  | [STRING v; COMMA; RBRACE] => Some [v]
  | STRING v :: COMMA :: rest => option_map (cons v) (values rest)
  | _ => None
  end.

Definition close_line (tokens : list token) : option (list string) :=
  match tokens with
  | RBRACE :: LBRACE :: rest => values rest
  | _ => None
  end.

(** Where the parser is between two lines: between declarations (after a
    blank line or not), in the comment of a declaration, or in its
    fields. *)
Inductive state : Type :=
| Between (blank : bool)
| InDoc (doc : list string)
| InFields (doc : list string) (name : string) (fields : list Field).

Fixpoint parse_decls (ls : list line) (st : state) (acc : list Decl)
  : option (list Decl) :=
  match ls with
  | [] =>
      match st with
      | Between _ => Some acc
      | _ => None
      end
  | l :: rest =>
      match st, l with
      | Between _, BlankLine => parse_decls rest (Between true) acc
      | Between true, CommentLine text => parse_decls rest (InDoc [text]) acc
      | InDoc doc, CommentLine text =>
          parse_decls rest (InDoc (doc ++ [text])) acc
      | InDoc doc, TokenLine tokens =>
          match var_line tokens with
          | Some name => parse_decls rest (InFields doc name []) acc
          | None => None
          end
      | InFields doc name fields, TokenLine tokens =>
          match field_line tokens with
          | Some f => parse_decls rest (InFields doc name (fields ++ [f])) acc
          | None =>
              match fields, close_line tokens with
              | _ :: _, Some vs =>
                  parse_decls rest (Between false)
                    (acc ++ [{| Decl_Doc := doc; Decl_Name := name;
                                Decl_Fields := fields; Decl_Values := vs |}])
              | _, _ => None
              end
          end
      | _, _ => None
      end
  end.

(** The comment lines at the head of the file. *)
Fixpoint parse_doc (ls : list line) (doc : list string)
  : list string * list line :=
  match ls with
  | CommentLine text :: rest => parse_doc rest (doc ++ [text])
  | _ => (doc, ls)
  end.

Inductive parsed : Type :=
| ParsedFile (f : File)
| ParseError (err : string)
| Outside.

(** The package clause: [package] and a name, which in the fragment is
    not [_].  When the file ends after [package] the parser reports that
    it found no identifier; the message is the library's, without the
    position in the text. *)
Definition parse (ls : list line) : parsed :=
  let '(doc, rest) := parse_doc ls [] in
  match rest with
  | TokenLine [KEYWORD k; IDENT name] :: rest =>
      if String.eqb k "package" && negb (String.eqb name "_") then
        match parse_decls rest (Between false) [] with
        | Some decls =>
            ParsedFile {| File_Doc := doc; File_Name := name;
                          File_Decls := decls |}
        | None => Outside
        end
      else Outside
  | TokenLine [KEYWORD k] :: rest =>
      if String.eqb k "package"
         && forallb (fun l => match l with BlankLine => true | _ => false end)
              rest
      then ParseError "expected 'IDENT', found 'EOF'"
      else Outside
  | _ => Outside
  end.

(** *** The printer *)

Definition comment_lines (doc : list string) : string :=
  String.concat "" (map (fun text => text +:+ NL) doc).

(** The names of the fields of a struct are padded to the longest. *)
Definition width (fields : list Field) : nat :=
  list_max (map (fun f => String.length (Field_Name f)) fields).

Definition print_field (w : nat) (f : Field) : string :=
  TAB +:+ Field_Name f
  +:+ replicate_string (w - String.length (Field_Name f)) " "
  +:+ " string"
  +:+ match Field_Comment f with
      | Some text => " " +:+ text
      | None => ""
      end
  +:+ NL.

Definition print_decl (d : Decl) : string :=
  NL +:+ comment_lines (Decl_Doc d)
  +:+ "var " +:+ Decl_Name d +:+ " = struct {" +:+ NL
  +:+ String.concat ""
        (map (print_field (width (Decl_Fields d))) (Decl_Fields d))
  +:+ "}{"
  +:+ String.concat ", " (map (fun v => DQ +:+ v +:+ DQ) (Decl_Values d))
  +:+ "}" +:+ NL.

Definition print (f : File) : string :=
  comment_lines (File_Doc f)
  +:+ "package " +:+ File_Name f +:+ NL
  +:+ String.concat "" (map print_decl (File_Decls f)).

(** [format.Source], on the fragment. *)
Definition Source (src : string) : option FormatOutcome :=
  match lines src with
  | Some ls =>
      match classify_all ls with
      | Some ls =>
          match parse ls with
          | ParsedFile f => Some (Formatted (print f))
          | ParseError err => Some (FormatError err)
          | Outside => None
          end
      | None => None
      end
  | None => None
  end.

End format.

(** A formatter that does what [format.Source] does on the fragment, and
    what [rest] does on every other text. *)
Definition format_Source_of (rest : string -> FormatOutcome) (src : string)
  : FormatOutcome :=
  match format.Source src with
  | Some outcome => outcome
  | None => rest src
  end.

(** The canonical layout of [models_source]. *)
Definition models_formatted : string :=
  String.concat ""
    ["// Code generated by pgsqlconsts; DO NOT EDIT."; NL;
     "package models"; NL;
     NL;
     "// Users contains constants for the users table"; NL;
     "var Users = struct {"; NL;
     TAB; "TableName string"; NL;
     TAB; "ID        string // int4"; NL;
     TAB; "Email     string // text"; NL;
     "}{"; DQ; "users"; DQ; ", "; DQ; "id"; DQ; ", "; DQ; "email"; DQ; "}"; NL].

(** The canonical layout of [header_source]: the blank lines at the end
    are gone. *)
Definition header_formatted (package : string) : string :=
  "// Code generated by pgsqlconsts; DO NOT EDIT." +:+ NL
  +:+ "package " +:+ package +:+ NL.

(** The flags of a run over [schema.sql] with [-package p -tables nothing
    -output out.go]. *)
Definition package_flags (p : string) : Flags :=
  {| pkg := p; matchTables := "nothing"; outputFile := "out.go";
     templateFile := ""; Args := ["schema.sql"] |}.

(** ** Further words for the properties of the extractor *)

(** A creation statement the third loop reads without a nil dereference:
    its relation name is there and, when the allowlist lets it pass, so are
    the name and the type name of each of its column definitions. *)
Definition readable (allow : gmap string bool) (s : nodes.CreateStmtValue)
  : bool :=
  match relname_of s with
  | Some name =>
      if passes allow name then forallb populated_element (nodes.TableElts s)
      else true
  | None => false
  end.

(** The relation names of the table-creation statements. *)
Definition relnames (stmts : list nodes.Node) : list string :=
  omap relname_of (creates stmts).

(** [CREATE TABLE users OF ... (id WITH OPTIONS ...)]: a column definition
    with no type name. *)
Definition untyped_users : nodes.Node :=
  nodes.CreateStmt (relation "users") [nodes.ColumnDef (Some "id") None].

(** ** The text the default template renders, for every [Data] *)

(** The field of a column in the struct type, and its value in the struct
    literal. *)
Definition column_field (table : rune -> rune) (c : Column) : string :=
  NL +:+ TAB +:+ goTitleCase table (Column_Name c) +:+ " string // "
  +:+ Column_Type c.

Definition column_value (c : Column) : string :=
  DQ +:+ Column_Name c +:+ DQ +:+ ",".

(** The comment and the variable of a table. *)
Definition table_source (table : rune -> rune) (t : Table) : string :=
  NL +:+ "// " +:+ goTitleCase table (Table_Name t)
  +:+ " contains constants for the " +:+ Table_Name t +:+ " table" +:+ NL
  +:+ "var " +:+ goTitleCase table (Table_Name t) +:+ " = struct{" +:+ NL
  +:+ TAB +:+ "TableName string"
  +:+ String.concat "" (map (column_field table) (Table_Columns t)) +:+ NL
  +:+ "}{" +:+ DQ +:+ Table_Name t +:+ DQ +:+ ","
  +:+ String.concat "" (map column_value (Table_Columns t)) +:+ " }" +:+ NL.

Definition default_source (table : rune -> rune) (d : Data) : string :=
  "// Code generated by pgsqlconsts; DO NOT EDIT." +:+ NL
  +:+ "package " +:+ Data_Package d +:+ NL +:+ NL
  +:+ String.concat "" (map (table_source table) (Data_Tables d)) +:+ NL.

(** [range] over the items of a slice: the body is executed with the dot
    at each item in turn. *)
Fixpoint exec_each (funcs : template.FuncMap) (body : list template.Node)
  (items : list template.Value) : template.ExecOutcome :=
  match items with
  | [] => ("", template.Finished)
  | v :: rest =>
      template.then_ (template.exec_list funcs body v)
        (fun _ => exec_each funcs body rest)
  end.

(** ** What a run may change *)

(** [w'] comes from [w] by lines added to the standard error, text added to
    the standard output when [output] is empty, and a write to the file
    [output] when it is not. *)
Definition written (output : string) (w w' : World) : Prop :=
  (forall path, path <> output -> files w' !! path = files w !! path)
  /\ (output = "" -> files w' = files w)
  /\ (output <> "" -> stdout w' = stdout w)
  /\ (exists text, stdout w' = stdout w +:+ text)
  /\ (exists lines, stderr w' = stderr w ++ lines).

(** The exit status of a run that ends in [os.Exit] is 1. *)
Definition exits_with_1 (e : Exit) : Prop :=
  match e with
  | Exited code => code = 1
  | _ => True
  end.

(** ** Further words for the properties of the caser *)

(** What [WriteRune] writes for a code point: half of a surrogate pair is
    replaced by [RuneError]. *)
Definition sanitize (r : rune) : rune :=
  if (utf8.surrogateMin <=? r) && (r <=? utf8.surrogateMax)
  then utf8.RuneError else r.

(** The case tables map a code point that UTF-8 encodes to another one,
    and the title case of a title-cased code point is itself. *)
Definition title_table_valid (table : rune -> rune) : Prop :=
  forall r, unicode.MaxASCII < r -> utf8.ValidRune r ->
    utf8.ValidRune (table r).

Definition title_table_idempotent (table : rune -> rune) : Prop :=
  forall r, unicode.MaxASCII < r -> utf8.ValidRune r ->
    unicode.ToTitle table (table r) = table r.

(** A name of two bytes, the second of which is no UTF-8. *)
Definition malformed_name : string := String "a" (String (ascii_of_nat 255) "").

(** [CREATE TABLE "a,b" ()]: a quoted name with a comma in it. *)
Definition create_comma : nodes.Node := nodes.CreateStmt (relation "a,b") [].

(** ** The flag [-template] *)

(** The flags without [-template]. *)
Definition no_template (fl : Flags) : Flags :=
  {| pkg := pkg fl; matchTables := matchTables fl;
     outputFile := outputFile fl; templateFile := ""; Args := Args fl |}.

(** The world of the schema with a copy of the built-in template. *)
Definition copy_world : World :=
  {| files := <["copy.tmpl" := gencodeTmpl]> (files schema_world);
     stdout := ""; stderr := [] |}.

(** * Properties *)

(** ** Bit operations as arithmetic *)

Lemma lor_shifted (a b n : Z) :
  0 <= n -> 0 <= b < 2 ^ n -> Z.lor (a * 2 ^ n) b = a * 2 ^ n + b.
Proof.
  intros Hn Hb.
  assert (H0 : Z.land (a * 2 ^ n) b = 0).
  { apply Z.bits_inj'. intros i Hi.
    rewrite Z.land_spec, Z.bits_0.
    destruct (Z.lt_ge_cases i n) as [Hlt | Hge].
    - rewrite Z.mul_pow2_bits_low by lia. reflexivity.
    - rewrite <- (Z.mod_small b (2 ^ n)) by lia.
      rewrite Z.mod_pow2_bits_high by lia. apply andb_false_r. }
  pose proof (Z.add_lor_land (a * 2 ^ n) b). lia.
Qed.

Lemma lor_disjoint (a b n : Z) :
  0 <= n -> a mod 2 ^ n = 0 -> 0 <= b < 2 ^ n -> Z.lor a b = a + b.
Proof.
  intros Hn Ha Hb.
  assert (Hp : 0 < 2 ^ n) by (apply Z.pow_pos_nonneg; lia).
  assert (E : a = a / 2 ^ n * 2 ^ n).
  { pose proof (Z.div_mod a (2 ^ n)). lia. }
  rewrite E at 1. rewrite lor_shifted by assumption. lia.
Qed.

Ltac dlia :=
  cbn [Z.pow Z.pow_pos Pos.iter Z.mul Pos.mul] in *;
  Z.div_mod_to_equations; lia.

(** Shifts and masks of the UTF-8 code become quotients and remainders. *)
Ltac utf8_arith :=
  unfold utf8.t2, utf8.t3, utf8.t4, utf8.tx, utf8.maskx, utf8.mask2,
    utf8.mask3, utf8.mask4, utf8.byte, utf8.locb, utf8.hicb in *;
  change 0x3F with (Z.ones 6) in *; change 0x1F with (Z.ones 5) in *;
  change 0x0F with (Z.ones 4) in *; change 0x07 with (Z.ones 3) in *;
  repeat rewrite Z.land_ones in * by lia;
  repeat rewrite Z.shiftr_div_pow2 in * by lia;
  repeat rewrite Z.shiftl_mul_pow2 in * by lia.

Module utf8_facts.
Import utf8.

Lemma EncodeRune_1 (r : rune) : 0 <= r <= 0x7F -> EncodeRune r = [r].
Proof.
  intros H. unfold EncodeRune, uint32, rune1Max, byte.
  rewrite Z.mod_small by lia.
  destruct (r <=? 127) eqn:E; [|lia].
  rewrite Z.mod_small by lia. reflexivity.
Qed.

Lemma EncodeRune_2 (r : rune) :
  0x80 <= r <= 0x7FF -> EncodeRune r = [192 + r / 64; 128 + r mod 64].
Proof.
  intros H. unfold EncodeRune, uint32, rune1Max, rune2Max.
  rewrite Z.mod_small by lia.
  destruct (r <=? 127) eqn:E1; [lia|].
  destruct (r <=? 2047) eqn:E2; [|lia].
  utf8_arith.
  rewrite (lor_disjoint 192 _ 6), (lor_disjoint 128 _ 6);
    try reflexivity; try dlia.
  f_equal; [|f_equal]; dlia.
Qed.

Lemma EncodeRune_3 (r : rune) :
  0x800 <= r <= 0xFFFF -> ~ (surrogateMin <= r <= surrogateMax) ->
  EncodeRune r = [224 + r / 4096; 128 + (r / 64) mod 64; 128 + r mod 64].
Proof.
  intros H Hs. unfold EncodeRune, uint32, rune1Max, rune2Max, rune3Max,
    MaxRune, surrogateMin, surrogateMax in *.
  rewrite Z.mod_small by lia.
  destruct (r <=? 127) eqn:E1; [lia|].
  destruct (r <=? 2047) eqn:E2; [lia|].
  destruct ((1114111 <? r) || ((55296 <=? r) && (r <=? 57343))) eqn:E3; [lia|].
  destruct (r <=? 65535) eqn:E4; [|lia].
  utf8_arith.
  rewrite (lor_disjoint 224 _ 5), !(lor_disjoint 128 _ 6);
    try reflexivity; try dlia.
  f_equal; [|f_equal; [|f_equal]]; dlia.
Qed.

Lemma EncodeRune_4 (r : rune) :
  0x10000 <= r <= MaxRune ->
  EncodeRune r =
    [240 + r / 262144; 128 + (r / 4096) mod 64; 128 + (r / 64) mod 64;
     128 + r mod 64].
Proof.
  intros H. unfold EncodeRune, uint32, rune1Max, rune2Max, rune3Max,
    MaxRune, surrogateMin, surrogateMax in *.
  rewrite Z.mod_small by lia.
  destruct (r <=? 127) eqn:E1; [lia|].
  destruct (r <=? 2047) eqn:E2; [lia|].
  destruct ((1114111 <? r) || ((55296 <=? r) && (r <=? 57343))) eqn:E3; [lia|].
  destruct (r <=? 65535) eqn:E4; [lia|].
  utf8_arith.
  rewrite (lor_disjoint 240 _ 4), !(lor_disjoint 128 _ 6);
    try reflexivity; try dlia.
  f_equal; [|f_equal; [|f_equal; [|f_equal]]]; dlia.
Qed.

Lemma EncodeRune_surrogate (r : rune) :
  surrogateMin <= r <= surrogateMax -> EncodeRune r = [0xEF; 0xBF; 0xBD].
Proof.
  intros H. unfold EncodeRune, uint32, rune1Max, rune2Max, rune3Max,
    MaxRune, surrogateMin, surrogateMax in *.
  rewrite Z.mod_small by lia.
  destruct (r <=? 127) eqn:E1; [lia|].
  destruct (r <=? 2047) eqn:E2; [lia|].
  destruct ((1114111 <? r) || ((55296 <=? r) && (r <=? 57343))) eqn:E3; [|lia].
  reflexivity.
Qed.

Ltac decide_ifs :=
  repeat match goal with
    | |- context [if ?c then _ else _] =>
        destruct c eqn:?; try (exfalso; dlia)
    end.

(** The value [DecodeRune] computes, as arithmetic. *)
Ltac decoded_value :=
  utf8_arith;
  repeat first
    [ rewrite lor_shifted by dlia
    | match goal with
      | |- context [Z.lor (?a + ?b) ?c] =>
          first [ rewrite (lor_disjoint (a + b) c 12) by dlia
                | rewrite (lor_disjoint (a + b) c 6) by dlia ]
      end ].

Ltac first_case := intros; unfold first; decide_ifs; reflexivity.

Lemma first_ascii (b : Z) : b < 0x80 -> first b = LeadASCII.
Proof. first_case. Qed.

Lemma first_2 (b : Z) : 0xC2 <= b <= 0xDF -> first b = LeadMulti 2 locb hicb.
Proof. first_case. Qed.

Lemma first_3 (b : Z) :
  0xE1 <= b <= 0xEF -> b <> 0xED -> first b = LeadMulti 3 locb hicb.
Proof. first_case. Qed.

Lemma first_4 (b : Z) : 0xF1 <= b <= 0xF3 -> first b = LeadMulti 4 locb hicb.
Proof. first_case. Qed.

Lemma first_invalid (b : Z) :
  0x80 <= b < 0xC2 \/ 0xF4 < b -> first b = LeadInvalid.
Proof. first_case. Qed.

Lemma first_E0 : first 0xE0 = LeadMulti 3 0xA0 hicb.
Proof. reflexivity. Qed.
Lemma first_ED : first 0xED = LeadMulti 3 locb 0x9F.
Proof. reflexivity. Qed.
Lemma first_F0 : first 0xF0 = LeadMulti 4 0x90 hicb.
Proof. reflexivity. Qed.
Lemma first_F4 : first 0xF4 = LeadMulti 4 locb 0x8F.
Proof. reflexivity. Qed.

Ltac decode_case :=
  unfold DecodeRune; cbn [app length];
  first [ rewrite first_ascii by dlia
        | rewrite first_2 by dlia
        | rewrite first_3 by dlia
        | rewrite first_4 by dlia
        | match goal with
          | |- context [first ?b] =>
              first [ replace b with 0xE0 by dlia; rewrite first_E0
                    | replace b with 0xED by dlia; rewrite first_ED
                    | replace b with 0xF0 by dlia; rewrite first_F0
                    | replace b with 0xF4 by dlia; rewrite first_F4 ]
          end ];
  cbv beta iota; unfold cont, locb, hicb; cbn [Nat.leb]; decide_ifs;
  cbn [negb]; decoded_value; f_equal; dlia.

Lemma DecodeRune_EncodeRune (r : rune) (rest : list Z) :
  ValidRune r ->
  exists s0 tl, EncodeRune r = s0 :: tl /\
    DecodeRune s0 (tl ++ rest) = (r, S (length tl)).
Proof.
  unfold ValidRune, surrogateMin, surrogateMax, MaxRune. intros Hv.
  destruct (Z_le_gt_dec r 0x7F) as [H1 | H1].
  { eexists _, _. split; [apply EncodeRune_1; lia|].
    unfold DecodeRune. rewrite first_ascii by lia. reflexivity. }
  destruct (Z_le_gt_dec r 0x7FF) as [H2 | H2].
  { eexists _, _. split; [apply EncodeRune_2; lia|]. decode_case. }
  destruct (Z_le_gt_dec r 0xFFFF) as [H3 | H3].
  { eexists _, _. split;
      [apply EncodeRune_3; unfold surrogateMin, surrogateMax; lia|].
    destruct (Z_le_gt_dec r 0xFFF); [decode_case|].
    destruct (Z_le_gt_dec 0xD000 r); [|decode_case].
    destruct (Z_le_gt_dec r 0xDFFF); decode_case. }
  eexists _, _. split; [apply EncodeRune_4; unfold MaxRune; lia|].
  destruct (Z_le_gt_dec r 0x3FFFF); [decode_case|].
  destruct (Z_le_gt_dec 0x100000 r); decode_case.
Qed.

End utf8_facts.

(** A decoded rune is a code point. *)
Lemma DecodeRune_range (s0 : Z) (rest : list Z) :
  0 <= s0 -> 0 <= fst (utf8.DecodeRune s0 rest) <= utf8.MaxRune.
Proof.
  intros H0. unfold utf8.DecodeRune, utf8.first, utf8.cont, utf8.RuneError,
    utf8.MaxRune.
  repeat (cbn [Nat.leb];
          match goal with
          | |- context [if ?c then _ else _] => destruct c eqn:?
          | |- context [match ?l with [] => _ | _ :: _ => _ end] => destruct l
          end);
    cbn [fst]; try lia;
    unfold utf8.locb, utf8.hicb in *; utf8_facts.decoded_value; dlia.
Qed.

(** The bytes of an encoded code point, and the only one that encodes to
    the byte of an underscore. *)
Lemma EncodeRune_bytes (r : rune) :
  0 <= r <= utf8.MaxRune ->
  Forall (fun b => 0 <= b < 256 /\ (b = 95 -> r = 95)) (utf8.EncodeRune r).
Proof.
  unfold utf8.MaxRune. intros H.
  destruct (Z_le_gt_dec r 0x7F).
  { rewrite utf8_facts.EncodeRune_1 by lia. repeat constructor; lia. }
  destruct (Z_le_gt_dec r 0x7FF).
  { rewrite utf8_facts.EncodeRune_2 by lia. repeat constructor; dlia. }
  destruct (Z_le_gt_dec 0x10000 r).
  { rewrite utf8_facts.EncodeRune_4 by (unfold utf8.MaxRune; lia).
    repeat constructor; dlia. }
  destruct (Z_le_gt_dec utf8.surrogateMin r); unfold utf8.surrogateMin in *.
  - destruct (Z_le_gt_dec r utf8.surrogateMax); unfold utf8.surrogateMax in *.
    + rewrite utf8_facts.EncodeRune_surrogate
        by (unfold utf8.surrogateMin, utf8.surrogateMax; lia).
      repeat constructor; lia.
    + rewrite utf8_facts.EncodeRune_3
        by (unfold utf8.surrogateMin, utf8.surrogateMax; lia).
      repeat constructor; dlia.
  - rewrite utf8_facts.EncodeRune_3
      by (unfold utf8.surrogateMin, utf8.surrogateMax; lia).
    repeat constructor; dlia.
Qed.

(** ** Bytes and strings *)

Lemma byte_of_ascii_range (a : ascii) : 0 <= byte_of_ascii a < 256.
Proof.
  unfold byte_of_ascii. pose proof (N_ascii_bounded a). lia.
Qed.

Lemma ascii_of_byte_of_ascii (a : ascii) : ascii_of_byte (byte_of_ascii a) = a.
Proof.
  unfold ascii_of_byte. pose proof (byte_of_ascii_range a).
  rewrite Z.mod_small by lia. unfold byte_of_ascii.
  rewrite N2Z.id. apply ascii_N_embedding.
Qed.

Lemma byte_of_ascii_of_byte (b : Z) :
  0 <= b < 256 -> byte_of_ascii (ascii_of_byte b) = b.
Proof.
  intros H. unfold ascii_of_byte, byte_of_ascii.
  rewrite Z.mod_small by lia.
  rewrite N_ascii_embedding by lia. lia.
Qed.

Lemma string_of_bytes_of_string (s : string) :
  string_of_bytes (bytes_of_string s) = s.
Proof.
  unfold string_of_bytes, bytes_of_string.
  rewrite map_map.
  rewrite (map_ext _ (fun a => a)) by apply ascii_of_byte_of_ascii.
  rewrite map_id. apply string_of_list_ascii_of_string.
Qed.

Lemma bytes_of_string_of_bytes (l : list Z) :
  Forall (fun b => 0 <= b < 256) l -> bytes_of_string (string_of_bytes l) = l.
Proof.
  intros H. unfold string_of_bytes, bytes_of_string.
  rewrite list_ascii_of_string_of_list_ascii, map_map.
  induction H as [|b l Hb Hl IH]; [reflexivity|].
  cbn [map]. rewrite byte_of_ascii_of_byte by assumption. now rewrite IH.
Qed.

Lemma bytes_of_string_range (s : string) :
  Forall (fun b => 0 <= b < 256) (bytes_of_string s).
Proof.
  unfold bytes_of_string. apply List.Forall_forall. intros b Hb.
  apply in_map_iff in Hb as (a & <- & _). apply byte_of_ascii_range.
Qed.

(** ** The loop over a string *)

Lemma range_from_skip (tl rest : list Z) (i : nat) :
  range_from i (length tl) (tl ++ rest) = range_from (i + length tl) 0 rest.
Proof.
  revert i. induction tl as [|b tl IH]; intros i; cbn [length app].
  - now rewrite Nat.add_0_r.
  - cbn [range_from]. rewrite IH. f_equal. lia.
Qed.

Lemma runes_encode_from (rs : list rune) (i : nat) :
  Forall utf8.ValidRune rs ->
  map snd (range_from i 0 (utf8.encode_runes rs)) = rs.
Proof.
  intros H. revert i. induction H as [|r rs Hr Hrs IH]; intros i.
  - reflexivity.
  - unfold utf8.encode_runes in *. cbn [flat_map].
    destruct (utf8_facts.DecodeRune_EncodeRune r (flat_map utf8.EncodeRune rs) Hr)
      as (s0 & tl & -> & HD).
    cbn [app range_from]. rewrite HD.
    cbn [map snd]. f_equal.
    replace (S (length tl) - 1)%nat with (length tl) by lia.
    rewrite range_from_skip. apply IH.
Qed.

Lemma range_from_index (s : list Z) (i skip : nat) :
  Forall (fun p => (i <= fst p)%nat) (range_from i skip s).
Proof.
  revert i skip. induction s as [|b s IH]; intros i skip; cbn [range_from].
  - constructor.
  - destruct skip as [|k].
    + destruct (utf8.DecodeRune b s) as [r size]. constructor; [cbn; lia|].
      eapply List.Forall_impl; [|apply IH]. cbn. intros; lia.
    + eapply List.Forall_impl; [|apply IH]. cbn. intros; lia.
Qed.

Lemma range_from_runes (s : list Z) (i skip : nat) :
  Forall (fun b => 0 <= b < 256) s ->
  Forall (fun p => 0 <= snd p <= utf8.MaxRune) (range_from i skip s).
Proof.
  intros H. revert i skip.
  induction H as [|b s Hb Hs IH]; intros i skip; cbn [range_from].
  - constructor.
  - destruct skip as [|k]; [|apply IH].
    pose proof (DecodeRune_range b s (proj1 Hb)) as Hr.
    destruct (utf8.DecodeRune b s) as [r size]. constructor; [exact Hr|apply IH].
Qed.

Lemma runes_ascii_from (s : list Z) (i : nat) :
  Forall (fun b => b < 0x80) s -> map snd (range_from i 0 s) = s.
Proof.
  intros H. revert i. induction H as [|b s Hb Hs IH]; intros i.
  - reflexivity.
  - cbn [range_from]. unfold utf8.DecodeRune.
    rewrite utf8_facts.first_ascii by assumption.
    cbn [map snd Nat.sub]. now rewrite IH.
Qed.

(** ** [ToTitle] and the separators *)

Section CaserFacts.

Variable table : rune -> rune.
Hypothesis table_ok : title_table_ok table.

Lemma ToTitle_range (c : rune) :
  0 <= c <= utf8.MaxRune -> 0 <= unicode.ToTitle table c <= utf8.MaxRune.
Proof.
  intros H. unfold unicode.ToTitle, unicode.MaxASCII.
  destruct (c <=? 127) eqn:E.
  - unfold utf8.MaxRune in *. destruct ((97 <=? c) && (c <=? 122)) eqn:E2; lia.
  - apply table_ok. unfold unicode.MaxASCII. lia.
Qed.

Lemma ToTitle_eqb_SPACE (c : rune) :
  c <= utf8.MaxRune -> (unicode.ToTitle table c =? SPACE) = (c =? SPACE).
Proof.
  intros H. unfold unicode.ToTitle, unicode.MaxASCII, SPACE.
  destruct (c <=? 127) eqn:E.
  - destruct ((97 <=? c) && (c <=? 122)) eqn:E2; lia.
  - destruct (table_ok c) as (_ & Hs & _);
      [unfold unicode.MaxASCII; lia|]. unfold SPACE in Hs. lia.
Qed.

Lemma ToTitle_eqb_UNDERSCORE (c : rune) :
  c <= utf8.MaxRune ->
  (unicode.ToTitle table c =? UNDERSCORE) = (c =? UNDERSCORE).
Proof.
  intros H. unfold unicode.ToTitle, unicode.MaxASCII, UNDERSCORE.
  destruct (c <=? 127) eqn:E.
  - destruct ((97 <=? c) && (c <=? 122)) eqn:E2; lia.
  - destruct (table_ok c) as (_ & _ & Hu);
      [unfold unicode.MaxASCII; lia|]. unfold UNDERSCORE in Hu. lia.
Qed.

Lemma ToTitle_separator (c : rune) :
  c <= utf8.MaxRune ->
  is_separator (unicode.ToTitle table c) = is_separator c.
Proof.
  intros H. unfold is_separator.
  now rewrite ToTitle_eqb_SPACE, ToTitle_eqb_UNDERSCORE.
Qed.

(** One turn of the loop writes the character of the specification and
    leaves [titlecaseNext] saying whether a separator was read. *)
Lemma goTitleCase_step_spec (buf : Buffer.t) (next : bool) (i : nat) (c : rune) :
  c <= utf8.MaxRune ->
  goTitleCase_step table (buf, next) (i, c) =
    (buf ++ utf8.encode_runes
       (List.filter (fun c => negb (c =? UNDERSCORE))
          [if (i =? 0)%nat || next then unicode.ToTitle table c else c]),
     is_separator c).
Proof.
  intros Hc. unfold goTitleCase_step, Buffer.WriteRune, utf8.encode_runes.
  destruct ((i =? 0)%nat || next) eqn:Ecased.
  - rewrite <- (ToTitle_separator c Hc). unfold is_separator.
    cbn [List.filter flat_map].
    destruct (unicode.ToTitle table c =? SPACE) eqn:Es.
    + assert (Eu : (unicode.ToTitle table c =? UNDERSCORE) = false)
        by (unfold SPACE, UNDERSCORE in *; lia).
      rewrite Eu. cbn [negb flat_map orb]. now rewrite app_nil_r.
    + destruct (unicode.ToTitle table c =? UNDERSCORE) eqn:Eu;
        cbn [negb flat_map orb]; now rewrite app_nil_r.
  - apply orb_false_iff in Ecased as [_ ->].
    unfold is_separator. cbn [List.filter flat_map].
    destruct (c =? SPACE) eqn:Es.
    + assert (Eu : (c =? UNDERSCORE) = false)
        by (unfold SPACE, UNDERSCORE in *; lia).
      rewrite Eu. cbn [negb flat_map orb]. now rewrite app_nil_r.
    + destruct (c =? UNDERSCORE) eqn:Eu;
        cbn [negb flat_map orb]; now rewrite app_nil_r.
Qed.

Lemma goTitleCase_fold (l : list (nat * rune)) (buf : Buffer.t) (next : bool) :
  Forall (fun p => fst p <> 0%nat /\ snd p <= utf8.MaxRune) l ->
  fst (fold_left (goTitleCase_step table) l (buf, next)) =
    buf ++ utf8.encode_runes
      (List.filter (fun c => negb (c =? UNDERSCORE))
         (upper_after_separator table next (map snd l))).
Proof.
  intros H. revert buf next.
  induction H as [|[i c] l [Hi Hc] Hl IH]; intros buf next.
  - cbn. now rewrite app_nil_r.
  - cbn [fold_left map snd fst] in *.
    rewrite goTitleCase_step_spec by assumption.
    rewrite IH. apply Nat.eqb_neq in Hi. rewrite Hi. cbn [orb].
    cbn [upper_after_separator List.filter].
    destruct (negb ((if next then unicode.ToTitle table c else c) =? UNDERSCORE));
      unfold utf8.encode_runes; cbn [flat_map app];
      rewrite <- ?app_assoc; cbn [app]; reflexivity.
Qed.

Lemma goTitleCase_bytes (s : list Z) :
  Forall (fun b => 0 <= b < 256) s ->
  fst (fold_left (goTitleCase_step table) (range_from 0 0 s) (Buffer.empty, false))
  = utf8.encode_runes (title_spec table (map snd (range_from 0 0 s))).
Proof.
  intros Hs. destruct s as [|b s]; [reflexivity|].
  pose proof (range_from_runes (b :: s) 0 0 Hs) as Hr.
  cbn [range_from] in *.
  pose proof (range_from_index s 1 (snd (utf8.DecodeRune b s) - 1)) as Hi.
  destruct (utf8.DecodeRune b s) as [r size]. cbn [snd] in Hi.
  apply Forall_cons_1 in Hr as [Hr0 Hr]. cbn [snd] in Hr0.
  cbn [fold_left map snd].
  rewrite goTitleCase_step_spec by lia.
  rewrite goTitleCase_fold.
  - unfold title_spec. cbn [Nat.eqb orb upper_after_separator List.filter app].
    unfold Buffer.empty. cbn [app].
    destruct (negb (unicode.ToTitle table r =? UNDERSCORE));
      unfold utf8.encode_runes; cbn [flat_map app];
      rewrite ?app_nil_r; reflexivity.
  - apply List.Forall_forall. intros p Hp.
    rewrite List.Forall_forall in Hi, Hr.
    specialize (Hi p Hp). specialize (Hr p Hp). split; lia.
Qed.

(** [goTitleCase] is the caser of the specification, on the code points of
    its argument. *)
Lemma goTitleCase_refines (s : string) :
  s <> "id" ->
  goTitleCase table s = string_of_runes (title_spec table (runes s)).
Proof.
  intros Hs. unfold goTitleCase.
  apply String.eqb_neq in Hs. rewrite Hs.
  unfold Buffer.String, string_of_runes, runes, range_string.
  now rewrite goTitleCase_bytes by apply bytes_of_string_range.
Qed.

Lemma upper_after_separator_range (rs : list rune) (after : bool) :
  Forall (fun c => 0 <= c <= utf8.MaxRune) rs ->
  Forall (fun c => 0 <= c <= utf8.MaxRune)
    (upper_after_separator table after rs).
Proof.
  intros H. revert after. induction H as [|c rs Hc Hrs IH]; intros after.
  - constructor.
  - cbn [upper_after_separator]. constructor; [|apply IH].
    destruct after; [now apply ToTitle_range | exact Hc].
Qed.

Lemma title_spec_range (rs : list rune) :
  Forall (fun c => 0 <= c <= utf8.MaxRune) rs ->
  Forall (fun c => 0 <= c <= utf8.MaxRune /\ c <> UNDERSCORE)
    (title_spec table rs).
Proof.
  intros H. apply List.Forall_forall. intros c Hin.
  unfold title_spec in Hin. apply List.filter_In in Hin as [Hin Hne].
  pose proof (upper_after_separator_range rs true H) as Hr.
  rewrite List.Forall_forall in Hr. split; [now apply Hr|].
  apply negb_true_iff, Z.eqb_neq in Hne. exact Hne.
Qed.

Lemma encode_runes_bytes (rs : list rune) :
  Forall (fun c => 0 <= c <= utf8.MaxRune /\ c <> UNDERSCORE) rs ->
  Forall (fun b => 0 <= b < 256 /\ b <> UNDERSCORE) (utf8.encode_runes rs).
Proof.
  intros H. induction H as [|c rs [Hc Hne] Hrs IH]; [constructor|].
  unfold utf8.encode_runes in *. cbn [flat_map].
  apply Forall_app. split; [|exact IH].
  eapply List.Forall_impl; [|apply (EncodeRune_bytes c Hc)].
  cbn beta. unfold UNDERSCORE in *. intros b [Hb Hu]. split; [exact Hb|].
  intros ->. apply Hne. now apply Hu.
Qed.

(** No byte of the result is an underscore. *)
Lemma goTitleCase_no_underscore (s : string) :
  s <> "id" -> ~ In UNDERSCORE (bytes_of_string (goTitleCase table s)).
Proof.
  intros Hs Hin. rewrite goTitleCase_refines in Hin by assumption.
  unfold string_of_runes in Hin.
  assert (Hr : Forall (fun c => 0 <= c <= utf8.MaxRune) (runes s)).
  { unfold runes, range_string.
    pose proof (range_from_runes _ 0 0 (bytes_of_string_range s)) as H.
    apply List.Forall_forall. intros c Hc.
    apply in_map_iff in Hc as (p & <- & Hp).
    rewrite List.Forall_forall in H. now apply H. }
  pose proof (encode_runes_bytes _ (title_spec_range _ Hr)) as Hb.
  rewrite bytes_of_string_of_bytes in Hin.
  - rewrite List.Forall_forall in Hb. now destruct (Hb _ Hin).
  - eapply List.Forall_impl; [|exact Hb]. cbn beta. tauto.
Qed.

(** The spaces of the argument are the spaces of the result. *)
Lemma upper_after_separator_spaces (rs : list rune) (after : bool) :
  Forall (fun c => 0 <= c <= utf8.MaxRune) rs ->
  List.filter (fun c => c =? SPACE)
    (List.filter (fun c => negb (c =? UNDERSCORE))
       (upper_after_separator table after rs))
  = List.filter (fun c => c =? SPACE) rs.
Proof.
  intros H. revert after. induction H as [|c rs Hc Hrs IH]; intros after.
  - reflexivity.
  - cbn [upper_after_separator List.filter].
    set (c' := if after then unicode.ToTitle table c else c).
    assert (Es : (c' =? SPACE) = (c =? SPACE)).
    { subst c'. destruct after; [apply ToTitle_eqb_SPACE; lia | reflexivity]. }
    destruct (c' =? UNDERSCORE) eqn:Eu; cbn [negb List.filter].
    + rewrite IH. assert (Ec : (c =? SPACE) = false)
        by (unfold SPACE, UNDERSCORE in *; lia).
      now rewrite Ec.
    + rewrite Es, IH. destruct (c =? SPACE) eqn:Ec; [|reflexivity].
      f_equal. apply Z.eqb_eq in Es, Ec. congruence.
Qed.

End CaserFacts.

Lemma Latin1Title_ok : title_table_ok unicode.Latin1Title.
Proof.
  intros r. unfold unicode.Latin1Title, unicode.MaxASCII, utf8.MaxRune,
    SPACE, UNDERSCORE. intros H.
  repeat match goal with
    | |- context [if ?c then _ else _] => destruct c eqn:?
    end; lia.
Qed.

(** The code points of a well-formed UTF-8 string. *)
Lemma runes_string_of_runes (rs : list rune) :
  Forall utf8.ValidRune rs -> runes (string_of_runes rs) = rs.
Proof.
  intros H. unfold runes, range_string, string_of_runes.
  rewrite bytes_of_string_of_bytes; [now apply runes_encode_from|].
  unfold utf8.encode_runes. induction H as [|r rs Hr Hrs IH]; [constructor|].
  cbn [flat_map]. apply Forall_app. split; [|exact IH].
  eapply List.Forall_impl; [|apply (EncodeRune_bytes r)].
  - cbn beta. tauto.
  - unfold utf8.ValidRune, utf8.surrogateMin, utf8.surrogateMax,
      utf8.MaxRune in *. lia.
Qed.

(** ** Strings of separators *)

Lemma string_of_bytes_spaces (n : nat) :
  string_of_bytes (repeat SPACE n) = replicate_string n " ".
Proof.
  induction n as [|n IH]; [reflexivity|].
  cbn [repeat replicate_string]. unfold string_of_bytes in *.
  cbn [map string_of_list_ascii]. now rewrite IH.
Qed.

Lemma goTitleCase_fold_separators (table : rune -> rune) (l : list bool)
  (i : nat) (buf : Buffer.t) (next : bool) :
  fst (fold_left (goTitleCase_step table)
         (range_from i 0 (bytes_of_string (separators l))) (buf, next))
  = buf ++ repeat SPACE (length (List.filter (fun b => b) l)).
Proof.
  revert i buf next. induction l as [|b l IH]; intros i buf next.
  - cbn. now rewrite app_nil_r.
  - destruct b.
    + change (bytes_of_string (separators (true :: l)))
        with (SPACE :: bytes_of_string (separators l)).
      cbn [range_from]. change (utf8.DecodeRune SPACE _) with (SPACE, 1%nat).
      cbn [Nat.sub fold_left].
      replace (goTitleCase_step table (buf, next) (i, SPACE))
        with (buf ++ [SPACE], true)
        by (unfold goTitleCase_step; destruct ((i =? 0)%nat || next); reflexivity).
      rewrite IH. cbn [List.filter length repeat].
      rewrite <- app_assoc. reflexivity.
    + change (bytes_of_string (separators (false :: l)))
        with (UNDERSCORE :: bytes_of_string (separators l)).
      cbn [range_from]. change (utf8.DecodeRune UNDERSCORE _) with (UNDERSCORE, 1%nat).
      cbn [Nat.sub fold_left].
      replace (goTitleCase_step table (buf, next) (i, UNDERSCORE))
        with (buf, true)
        by (unfold goTitleCase_step; destruct ((i =? 0)%nat || next); reflexivity).
      rewrite IH. reflexivity.
Qed.

Lemma goTitleCase_separators (table : rune -> rune) (l : list bool) :
  goTitleCase table (separators l)
  = replicate_string (length (List.filter (fun b => b) l)) " ".
Proof.
  unfold goTitleCase.
  assert (E : String.eqb (separators l) "id" = false)
    by (destruct l as [|[] l]; reflexivity).
  rewrite E. unfold range_string, Buffer.String.
  rewrite goTitleCase_fold_separators. apply string_of_bytes_spaces.
Qed.

Lemma separators_underscores (n : nat) :
  replicate_string n "_" = separators (repeat false n).
Proof. induction n as [|n IH]; [reflexivity|]. cbn. now rewrite IH. Qed.

Lemma goTitleCase_underscores (table : rune -> rune) (n : nat) :
  goTitleCase table (replicate_string n "_") = "".
Proof.
  rewrite separators_underscores, goTitleCase_separators.
  replace (List.filter (fun b => b) (repeat false n)) with (@nil bool);
    [reflexivity|].
  induction n as [|n IH]; [reflexivity|exact IH].
Qed.

(** A character beyond ASCII is decoded, mapped by the case tables and
    encoded again. *)
Lemma goTitleCase_multibyte (table : rune -> rune) (r : rune) :
  title_table_ok table -> utf8.ValidRune r -> unicode.MaxASCII < r ->
  goTitleCase table (string_of_runes [r]) = string_of_runes [table r].
Proof.
  intros Hok Hv Hr.
  assert (Hrs : Forall utf8.ValidRune [r]) by (constructor; [exact Hv|constructor]).
  rewrite goTitleCase_refines; [|exact Hok|].
  - rewrite runes_string_of_runes by exact Hrs.
    unfold title_spec. cbn [upper_after_separator List.filter].
    unfold unicode.ToTitle.
    assert (E : (r <=? unicode.MaxASCII) = false) by lia. rewrite E.
    destruct (Hok r) as (_ & _ & Hu).
    { unfold utf8.ValidRune, utf8.surrogateMin, utf8.surrogateMax,
        utf8.MaxRune in *. lia. }
    apply Z.eqb_neq in Hu. rewrite Hu. reflexivity.
  - intros E. apply (f_equal runes) in E.
    rewrite runes_string_of_runes in E by exact Hrs. discriminate E.
Qed.

(** C1 (amended): for every string [s] other than "id", [goTitleCase]
    upper-cases (by [unicode.ToTitle]) exactly the first character and every
    character that immediately follows a space or an underscore, removes
    every underscore and keeps the spaces: the result is the encoding of
    [title_spec] on the code points of [s], it holds no underscore byte, and
    its spaces are those of [s].  "id" becomes "ID", "first name" becomes
    "First Name", and "user_id" becomes "UserId" (the special case is the
    whole string "id" only). *)
Theorem goTitleCase_title_cases (table : rune -> rune) (s : string) :
  title_table_ok table -> s <> "id" ->
  goTitleCase table s = string_of_runes (title_spec table (runes s))
  /\ ~ In UNDERSCORE (bytes_of_string (goTitleCase table s))
  /\ List.filter (fun c => c =? SPACE) (title_spec table (runes s))
     = List.filter (fun c => c =? SPACE) (runes s)
  /\ goTitleCase table "id" = "ID"
  /\ goTitleCase table "user_id" = "UserId"
  /\ goTitleCase table "first name" = "First Name".
Proof.
  intros Hok Hs. split; [now apply goTitleCase_refines|].
  split; [now apply goTitleCase_no_underscore|].
  split.
  - unfold title_spec. apply upper_after_separator_spaces; [exact Hok|].
    unfold runes, range_string.
    pose proof (range_from_runes _ 0 0 (bytes_of_string_range s)) as H.
    apply List.Forall_forall. intros c Hc.
    apply in_map_iff in Hc as (p & <- & Hp).
    rewrite List.Forall_forall in H. now apply H.
  - repeat split; reflexivity.
Qed.

Lemma goTitleCase_title_cases_witness :
  title_table_ok unicode.Latin1Title /\ "user_name" <> "id" /\
  goTitleCase unicode.Latin1Title "user_name" = "UserName" /\
  ~ In UNDERSCORE (bytes_of_string (goTitleCase unicode.Latin1Title "user_name")).
Proof.
  assert (Hne : "user_name" <> "id") by discriminate.
  pose proof (goTitleCase_title_cases unicode.Latin1Title "user_name"
                Latin1Title_ok Hne) as (H1 & H2 & _).
  split; [exact Latin1Title_ok|]. split; [exact Hne|].
  split; [reflexivity | exact H2].
Defined.

(** C1, as stated, fails: the claim gives "UserID" for "user_id". *)
Lemma goTitleCase_user_id_counterexample :
  goTitleCase unicode.Latin1Title "user_id" = "UserId" /\
  goTitleCase unicode.Latin1Title "user_id" <> "UserID".
Proof. split; [reflexivity | discriminate]. Qed.

(** C8 (amended): [goTitleCase] of the empty string is the empty string; of
    a string of underscores it is the empty string; of a string of spaces
    and underscores it is the spaces alone (a space is written, an underscore
    is not); a character of several bytes is decoded, mapped as one code
    point and encoded again. *)
Theorem goTitleCase_edge_cases (table : rune -> rune) (rs : list rune)
  (r : rune) :
  title_table_ok table ->
  Forall utf8.ValidRune rs -> string_of_runes rs <> "id" ->
  utf8.ValidRune r -> unicode.MaxASCII < r ->
  goTitleCase table "" = ""
  /\ (forall n, goTitleCase table (replicate_string n "_") = "")
  /\ (forall l, goTitleCase table (separators l)
               = replicate_string (length (List.filter (fun b => b) l)) " ")
  /\ goTitleCase table (string_of_runes rs)
     = string_of_runes (title_spec table rs)
  /\ goTitleCase table (string_of_runes [r]) = string_of_runes [table r].
Proof.
  intros Hok Hrs Hne Hr Hr'.
  split; [reflexivity|].
  split; [apply goTitleCase_underscores|].
  split; [apply goTitleCase_separators|].
  split; [|now apply goTitleCase_multibyte].
  rewrite goTitleCase_refines by assumption.
  now rewrite runes_string_of_runes.
Qed.

(** U+00E9 (bytes C3 A9) becomes U+00C9 (bytes C3 89); in "né_à" the
    two-byte letters at the start and after the underscore are upper-cased. *)
Lemma goTitleCase_edge_cases_witness :
  goTitleCase unicode.Latin1Title (string_of_bytes [0xC3; 0xA9])
    = string_of_bytes [0xC3; 0x89]
  /\ goTitleCase unicode.Latin1Title
       (string_of_bytes [0x6E; 0xC3; 0xA9; 0x5F; 0xC3; 0xA0])
     = string_of_bytes [0x4E; 0xC3; 0xA9; 0xC3; 0x80].
Proof.
  assert (Hv : forall c, 0 <= c < 0xD800 -> utf8.ValidRune c)
    by (intros c Hc; left; exact Hc).
  assert (Hrs : Forall utf8.ValidRune [0x6E; 0xE9; 0x5F; 0xE0])
    by (repeat (apply List.Forall_cons; [apply Hv; lia|]); apply List.Forall_nil).
  assert (Hne : string_of_runes [0x6E; 0xE9; 0x5F; 0xE0] <> "id")
    by (vm_compute; discriminate).
  assert (Hr : utf8.ValidRune 0xE9) by (apply Hv; lia).
  assert (Hr' : unicode.MaxASCII < 0xE9) by reflexivity.
  pose proof (goTitleCase_edge_cases unicode.Latin1Title _ _
                Latin1Title_ok Hrs Hne Hr Hr') as (_ & _ & _ & H4 & H5).
  split; [exact H5 | exact H4].
Defined.

(** C8, as stated, fails: a string of spaces is returned as it is. *)
Lemma goTitleCase_spaces_counterexample :
  goTitleCase unicode.Latin1Title " " = " " /\
  goTitleCase unicode.Latin1Title " _ " = "  " /\
  goTitleCase unicode.Latin1Title " " <> "".
Proof. split; [reflexivity | split; [reflexivity | discriminate]]. Qed.

(** ** [toString] *)

Lemma append_nil_r (s : string) : s +:+ "" = s.
Proof.
  induction s as [|c s IH]; [reflexivity|].
  change (String c s +:+ "") with (String c (s +:+ "")). now rewrite IH.
Qed.

Lemma append_assoc (a b c : string) : (a +:+ b) +:+ c = a +:+ (b +:+ c).
Proof.
  induction a as [|x a IH]; [reflexivity|].
  change (String x a +:+ b) with (String x (a +:+ b)).
  change (String x (a +:+ b) +:+ c) with (String x ((a +:+ b) +:+ c)).
  now rewrite IH.
Qed.

Lemma bytes_of_string_app (a b : string) :
  bytes_of_string (a +:+ b) = bytes_of_string a ++ bytes_of_string b.
Proof.
  unfold bytes_of_string. induction a as [|c a IH]; [reflexivity|].
  change (String c a +:+ b) with (String c (a +:+ b)).
  cbn [list_ascii_of_string map app]. now rewrite IH.
Qed.

Lemma bytes_of_string_nil (s : string) :
  bytes_of_string s = [] -> s = "".
Proof. destruct s; [reflexivity | discriminate]. Qed.

Lemma bytes_of_concat (s : string) (l : list string) :
  bytes_of_string (String.concat " " (s :: l)) = bytes_of_string s ++ spaced l.
Proof.
  revert s. induction l as [|x l IH]; intros s.
  - cbn. now rewrite app_nil_r.
  - change (String.concat " " (s :: x :: l))
      with (s +:+ " " +:+ String.concat " " (x :: l)).
    rewrite !bytes_of_string_app, IH. reflexivity.
Qed.

Lemma toString_loop_nonempty (nod : list nodes.Node) (buf : Buffer.t)
  (log : list string) :
  buf <> [] ->
  toString_loop nod buf log
  = (Ok (buf ++ spaced (literals nod)), log ++ unhandled nod).
Proof.
  revert buf log. induction nod as [|n nod IH]; intros buf log Hbuf.
  - cbn. now rewrite !app_nil_r.
  - destruct n; cbn [toString_loop toString_body bind ret log_Printf];
      try (rewrite IH by assumption; unfold literals, unhandled;
           cbn [omap list_omap literal_of]; now rewrite <- app_assoc).
    assert (E : (Buffer.Len buf =? 0)%nat = false)
      by (destruct buf; [contradiction | reflexivity]).
    rewrite E. cbn [negb].
    unfold Buffer.WriteString, Buffer.WriteByte.
    rewrite IH by (destruct buf; discriminate).
    unfold literals, unhandled, spaced. cbn [omap list_omap literal_of flat_map].
    rewrite <- !app_assoc. reflexivity.
Qed.

Lemma toString_loop_empty (nod : list nodes.Node) (log : list string) :
  toString_loop nod Buffer.empty log
  = (Ok (bytes_of_string (String.concat " " (drop_empty (literals nod)))),
     log ++ unhandled nod).
Proof.
  revert log. induction nod as [|n nod IH]; intros log.
  - cbn. now rewrite app_nil_r.
  - destruct n; cbn [toString_loop toString_body bind ret log_Printf];
      try (rewrite IH; unfold literals, unhandled;
           cbn [omap list_omap literal_of]; now rewrite <- app_assoc).
    unfold Buffer.empty, Buffer.WriteString. cbn [Buffer.Len length Nat.eqb negb app].
    unfold literals, unhandled. cbn [omap list_omap literal_of drop_empty].
    destruct (String.eqb Str "") eqn:E.
    + apply String.eqb_eq in E. subst Str. apply IH.
    + rewrite toString_loop_nonempty.
      * now rewrite bytes_of_concat.
      * intros H. apply bytes_of_string_nil in H. subst Str. discriminate E.
Qed.

(** What [toString] returns and logs; it never panics. *)
Lemma toString_spec (nod : list nodes.Node) (log : list string) :
  toString nod log
  = (Ok (String.concat " " (drop_empty (literals nod))), log ++ unhandled nod).
Proof.
  unfold toString, bind. rewrite toString_loop_empty.
  unfold ret, Buffer.String. now rewrite string_of_bytes_of_string.
Qed.

Lemma drop_empty_id (l : list string) :
  Forall (fun s => s <> "") l -> drop_empty l = l.
Proof.
  destruct 1 as [|s l Hs _]; [reflexivity|].
  cbn. apply String.eqb_neq in Hs. now rewrite Hs.
Qed.

(** ** The walk over the statements *)

Lemma createTables_loop_spec (stmts : list nodes.Node)
  (acc : list nodes.CreateStmtValue) (log : list string) :
  createTables_loop stmts acc log
  = (Ok (acc ++ creates stmts), log ++ unexpected stmts).
Proof.
  revert acc log. induction stmts as [|n stmts IH]; intros acc log.
  - cbn. now rewrite !app_nil_r.
  - unfold creates, unexpected in *.
    destruct n as [|stmt| | | |];
      [ | destruct stmt | | | | ];
      cbn [createTables_loop createTables_body bind ret log_Printf
           omap list_omap create_of unexpected_of];
      rewrite IH; rewrite <- ?app_assoc; reflexivity.
Qed.

Lemma creates_app (l1 l2 : list nodes.Node) :
  creates (l1 ++ l2) = creates l1 ++ creates l2.
Proof. unfold creates. apply omap_app. Qed.

Lemma unexpected_app (l1 l2 : list nodes.Node) :
  unexpected (l1 ++ l2) = unexpected l1 ++ unexpected l2.
Proof. unfold unexpected. apply omap_app. Qed.

(** ** The allowlist *)

Lemma Split_not_nil (s : string) (sep : ascii) : strings.Split s sep <> [].
Proof.
  induction s as [|c s IH]; cbn [strings.Split]; [discriminate|].
  destruct (Ascii.eqb c sep); [discriminate|].
  destruct (strings.Split s sep); discriminate.
Qed.

Lemma fold_insert_lookup (l : list string) (m : gmap string bool) (k : string) :
  fold_left (fun (t : gmap string bool) x => <[x := true]> t) l m !! k
  = if bool_decide (k ∈ l) then Some true else m !! k.
Proof.
  revert m. induction l as [|x l IH]; intros m; [reflexivity|].
  cbn [fold_left]. rewrite IH.
  destruct (decide (k = x)) as [->|Hne].
  - rewrite lookup_insert_eq.
    rewrite (bool_decide_eq_true_2 (x ∈ x :: l)) by apply list_elem_of_here.
    now destruct (bool_decide (x ∈ l)).
  - rewrite lookup_insert_ne by congruence.
    destruct (bool_decide (k ∈ l)) eqn:E.
    + apply bool_decide_eq_true_1 in E.
      now rewrite bool_decide_eq_true_2 by (now apply list_elem_of_further).
    + apply bool_decide_eq_false_1 in E.
      rewrite bool_decide_eq_false_2; [reflexivity|].
      rewrite elem_of_cons. intros [H|H]; congruence.
Qed.

Lemma tables_empty : tables "" = ∅.
Proof. reflexivity. Qed.

Lemma tables_lookup (matchTables name : string) :
  matchTables <> "" ->
  map_index (tables matchTables) name
  = bool_decide (name ∈ strings.Split matchTables ",").
Proof.
  intros H. unfold tables, map_index.
  apply String.eqb_neq in H. rewrite H. cbn [negb].
  rewrite fold_insert_lookup, lookup_empty.
  now destruct (bool_decide _).
Qed.

Lemma tables_not_empty (matchTables : string) :
  matchTables <> "" -> tables matchTables <> ∅.
Proof.
  intros H E.
  destruct (strings.Split matchTables ",") as [|x l] eqn:ES;
    [now apply Split_not_nil in ES|].
  pose proof (tables_lookup matchTables x H) as Hx.
  rewrite E, ES in Hx. unfold map_index in Hx. rewrite lookup_empty in Hx.
  rewrite bool_decide_eq_true_2 in Hx by apply list_elem_of_here.
  discriminate Hx.
Qed.


Lemma passes_not_empty (allow : gmap string bool) (name : string) :
  allow <> ∅ -> passes allow name = map_index allow name.
Proof.
  intros H. unfold passes.
  assert (E : (0 <? size allow)%nat = true).
  { apply Nat.ltb_lt. apply map_size_non_empty_iff in H. lia. }
  rewrite E. cbn [andb]. apply negb_involutive.
Qed.

(** ** The columns and the tables *)

Lemma columns_loop_spec (items : list nodes.Node) (acc : list Column)
  (log : list string) :
  forallb populated_element items = true ->
  columns_loop items acc log
  = (Ok (acc ++ omap column_of items), log ++ columns_log items).
Proof.
  revert acc log. induction items as [|n items IH]; intros acc log H.
  - cbn. now rewrite !app_nil_r.
  - cbn [forallb] in H. apply andb_true_iff in H as [Hn H].
    unfold columns_log in *.
    destruct n as [| | |colname typeName| |];
      cbn [columns_loop omap list_omap column_of flat_map app];
      try (now apply IH).
    destruct colname as [name|]; [|discriminate Hn].
    destruct typeName as [names|]; [|discriminate Hn].
    cbn [bind deref]. unfold bind at 1. rewrite toString_spec.
    rewrite IH by assumption. rewrite <- !app_assoc. reflexivity.
Qed.

Lemma populated_relname (s : nodes.CreateStmtValue) :
  populated s = true ->
  exists relation name,
    nodes.Relation s = Some relation /\ nodes.Relname relation = Some name /\
    relname_of s = Some name /\
    forallb populated_element (nodes.TableElts s) = true.
Proof.
  unfold populated, relname_of.
  destruct (nodes.Relation s) as [relation|]; [|discriminate].
  destruct (nodes.Relname relation) as [name|] eqn:E; [|discriminate].
  intros H. exists relation, name. now rewrite E.
Qed.

Lemma tables_loop_spec (createTables : list nodes.CreateStmtValue)
  (allow : gmap string bool) (acc : list Table) (log : list string) :
  Forall (fun s => populated s = true) createTables ->
  tables_loop createTables allow acc log
  = (Ok (acc ++ omap table_of (List.filter (passes_create allow) createTables)),
     log ++ tables_log allow createTables).
Proof.
  intros H. revert acc log.
  induction H as [|s rest Hs Hrest IH]; intros acc log.
  - cbn. now rewrite !app_nil_r.
  - destruct (populated_relname s Hs) as (relation & name & HR & HN & Hrel & Hcols).
    unfold tables_log in *. cbn [tables_loop List.filter].
    rewrite HR. cbn [bind deref]. rewrite HN. cbn [bind deref].
    assert (Hp : passes_create allow s
                 = negb ((0 <? size allow)%nat && negb (map_index allow name)))
      by (unfold passes_create, passes; now rewrite Hrel).
    rewrite Hp.
    destruct ((0 <? size allow)%nat && negb (map_index allow name)) eqn:E;
      cbn [negb].
    + apply IH.
    + unfold bind at 1. rewrite columns_loop_spec by assumption.
      rewrite IH. cbn [omap list_omap flat_map app].
      unfold table_of at 2. rewrite Hrel.
      rewrite <- !app_assoc. reflexivity.
Qed.

(** [extract] on statements that are populated: its tables and its log. *)
Lemma extract_spec (stmts : list nodes.Node) (matchTables : string)
  (log : list string) :
  Forall (fun s => populated s = true) (creates stmts) ->
  extract stmts matchTables log
  = (Ok (spec_tables stmts (tables matchTables)),
     log ++ unexpected stmts
         ++ tables_log (tables matchTables) (creates stmts)).
Proof.
  intros H. unfold extract, bind.
  rewrite createTables_loop_spec. cbn [app].
  rewrite tables_loop_spec by assumption.
  unfold spec_tables. cbn [app]. now rewrite <- app_assoc.
Qed.

(** ** The log only grows, whatever the outcome *)

Lemma appends_ret {A : Type} (a : A) : appends (ret a).
Proof. intros log. cbn. now rewrite app_nil_r. Qed.

Lemma appends_deref {A : Type} (p : option A) : appends (deref p).
Proof. intros log. destruct p; cbn; now rewrite app_nil_r. Qed.

Lemma appends_bind {A B : Type} (c : M A) (k : A -> M B) :
  appends c -> (forall a, appends (k a)) -> appends (bind c k).
Proof.
  intros Hc Hk log. unfold bind.
  rewrite (Hc log). destruct (c []) as [[a|] l] eqn:E; cbn [fst snd].
  - rewrite (Hk a (log ++ l)), (Hk a l). cbn [fst snd].
    now rewrite app_assoc.
  - reflexivity.
Qed.

Lemma appends_toString (nod : list nodes.Node) : appends (toString nod).
Proof. intros log. now rewrite !toString_spec. Qed.

Lemma appends_columns_loop (items : list nodes.Node) (acc : list Column) :
  appends (columns_loop items acc).
Proof.
  revert acc. induction items as [|n items IH]; intros acc.
  - apply appends_ret.
  - destruct n; cbn [columns_loop]; try apply IH.
    apply appends_bind; [apply appends_deref|]. intros name.
    apply appends_bind; [apply appends_deref|]. intros names.
    apply appends_bind; [apply appends_toString|]. intros type. apply IH.
Qed.

Lemma appends_tables_loop (createTables : list nodes.CreateStmtValue)
  (allow : gmap string bool) (acc : list Table) :
  appends (tables_loop createTables allow acc).
Proof.
  revert acc. induction createTables as [|s rest IH]; intros acc.
  - apply appends_ret.
  - cbn [tables_loop].
    apply appends_bind; [apply appends_deref|]. intros relation.
    apply appends_bind; [apply appends_deref|]. intros name.
    destruct ((0 <? size allow)%nat && negb (map_index allow name));
      [apply IH|].
    apply appends_bind; [apply appends_columns_loop|]. intros cols. apply IH.
Qed.

(** The outcome of [extract] is that of the third loop on the creation
    statements, and its log starts with the lines of the walk. *)
Lemma extract_outcome (stmts : list nodes.Node) (matchTables : string)
  (log : list string) :
  extract stmts matchTables log
  = (fst (tables_loop (creates stmts) (tables matchTables) [] []),
     log ++ unexpected stmts
         ++ snd (tables_loop (creates stmts) (tables matchTables) [] [])).
Proof.
  unfold extract, bind. rewrite createTables_loop_spec. cbn [app].
  rewrite (appends_tables_loop _ _ _ (log ++ unexpected stmts)).
  now rewrite <- app_assoc.
Qed.

(** ** The tables of populated statements *)

Lemma omap_cons {A B : Type} (f : A -> option B) (x : A) (l : list A) :
  omap f (x :: l)
  = match f x with Some y => y :: omap f l | None => omap f l end.
Proof. reflexivity. Qed.

Lemma populated_table_of (s : nodes.CreateStmtValue) :
  populated s = true ->
  exists name,
    relname_of s = Some name
    /\ table_of s = Some {| Table_Name := name;
                            Table_Columns := omap column_of (nodes.TableElts s) |}.
Proof.
  intros Hs.
  destruct (populated_relname s Hs) as (relation & name & _ & _ & Hrel & _).
  exists name. split; [exact Hrel|]. unfold table_of. now rewrite Hrel.
Qed.

Lemma populated_table_names (l : list nodes.CreateStmtValue) :
  Forall (fun s => populated s = true) l ->
  map Table_Name (omap table_of l) = omap relname_of l
  /\ length (omap relname_of l) = length l.
Proof.
  induction 1 as [|s l Hs Hl [IH1 IH2]]; [split; reflexivity|].
  destruct (populated_table_of s Hs) as (name & Hrel & Htab).
  rewrite !omap_cons, Hrel, Htab. cbn [map Table_Name length].
  now rewrite IH1, IH2.
Qed.

Lemma populated_filter (allow : gmap string bool)
  (l : list nodes.CreateStmtValue) :
  Forall (fun s => populated s = true) l ->
  Forall (fun s => populated s = true) (List.filter (passes_create allow) l)
  /\ omap relname_of (List.filter (passes_create allow) l)
     = List.filter (passes allow) (omap relname_of l).
Proof.
  induction 1 as [|s l Hs Hl [IH1 IH2]]; [split; [constructor|reflexivity]|].
  destruct (populated_table_of s Hs) as (name & Hrel & _).
  rewrite omap_cons, Hrel. cbn [List.filter].
  assert (Hp : passes_create allow s = passes allow name)
    by (unfold passes_create; now rewrite Hrel).
  rewrite Hp. destruct (passes allow name).
  - split; [now constructor|]. now rewrite omap_cons, Hrel, IH2.
  - now split.
Qed.



Lemma spec_tables_names (stmts : list nodes.Node) (allow : gmap string bool) :
  Forall (fun s => populated s = true) (creates stmts) ->
  map Table_Name (spec_tables stmts allow)
  = List.filter (passes allow) (omap relname_of (creates stmts)).
Proof.
  intros H. unfold spec_tables.
  destruct (populated_filter allow _ H) as [Hf Hn].
  destruct (populated_table_names _ Hf) as [Ht _].
  now rewrite Ht, Hn.
Qed.


Lemma schema_populated : Forall (fun s => populated s = true) (creates schema).
Proof. repeat (apply List.Forall_cons; [reflexivity|]). apply List.Forall_nil. Qed.






(** C4, on the input that shows the defect: an INSERT inside a [RawStmt] is
    skipped and the tables after it are read, but no line is logged; the
    same statement outside a [RawStmt] is logged. *)
Theorem extract_wrapped_insert :
  extract [nodes.RawStmt insert_stmt; nodes.RawStmt create_posts] "" []
    = (Ok [posts_table], [])
  /\ extract [insert_stmt; nodes.RawStmt create_posts] "" []
     = (Ok [posts_table], ["unexpected statement type nodes.InsertStmt"]).
Proof. split; reflexivity. Qed.

(** A statement that is no table creation, bare or wrapped, changes no
    outcome: the creation statements found are those found without it, and
    so is what [extract] returns, a panic included; it is logged when it is
    no [RawStmt]. *)
Lemma extract_skips (pre post : list nodes.Node) (n : nodes.Node)
  (matchTables : string) (log : list string) :
  create_of n = None ->
  createTables_loop (pre ++ n :: post) [] log
    = (Ok (creates (pre ++ post)),
       log ++ unexpected pre ++ option_list (unexpected_of n)
           ++ unexpected post)
  /\ fst (extract (pre ++ n :: post) matchTables log)
     = fst (extract (pre ++ post) matchTables log).
Proof.
  intros Hn.
  assert (Hc : creates (pre ++ n :: post) = creates (pre ++ post)).
  { rewrite !creates_app. f_equal. unfold creates.
    now rewrite omap_cons, Hn. }
  split.
  - rewrite createTables_loop_spec, Hc. cbn [app]. do 2 f_equal.
    rewrite unexpected_app. f_equal. unfold unexpected.
    rewrite omap_cons. now destruct (unexpected_of n).
  - rewrite !extract_outcome. cbn [fst]. now rewrite Hc.
Qed.

Lemma extract_skips_witness :
  createTables_loop [nodes.RawStmt insert_stmt; nodes.RawStmt create_posts] [] []
  = (Ok (creates [nodes.RawStmt create_posts]), [])
  /\ fst (extract [nodes.RawStmt insert_stmt; nodes.RawStmt create_posts] "" [])
     = fst (extract [nodes.RawStmt create_posts] "" []).
Proof.
  exact (extract_skips [] [nodes.RawStmt create_posts]
           (nodes.RawStmt insert_stmt) "" [] eq_refl).
Defined.

(** The text joined starts with the first part and ends with the last:
    no separator stands before the first or after the last. *)
Lemma concat_first (sep first : string) (rest : list string) :
  exists tail, String.concat sep (first :: rest) = first +:+ tail.
Proof.
  destruct rest as [|s rest].
  - exists "". cbn. now rewrite append_nil_r.
  - now exists (sep +:+ String.concat sep (s :: rest)).
Qed.

Lemma concat_last (sep last : string) (init : list string) :
  exists head, String.concat sep (init ++ [last]) = head +:+ last.
Proof.
  induction init as [|s init [head IH]]; [now exists ""|].
  exists (s +:+ sep +:+ head). cbn [app].
  assert (E : String.concat sep (s :: init ++ [last])
              = s +:+ sep +:+ String.concat sep (init ++ [last]))
    by (now destruct init).
  now rewrite E, IH, !append_assoc.
Qed.

(** C7: [toString] never panics; on parts as the parser gives them, where
    no string literal is empty, it returns the texts of the string
    literals, in order, joined by single spaces, with no space before the
    first or after the last, and it logs one line for each part that is no
    string literal; each part is the one or the other. *)
Theorem toString_joins (nod : list nodes.Node) (log : list string) :
  Forall (fun s => s <> "") (literals nod) ->
  toString nod log
  = (Ok (String.concat " " (literals nod)), log ++ unhandled nod)
  /\ (length (literals nod) + length (unhandled nod))%nat = length nod
  /\ (forall first rest,
        literals nod = first :: rest ->
        exists tail, String.concat " " (literals nod) = first +:+ tail)
  /\ (forall init last,
        literals nod = init ++ [last] ->
        exists head, String.concat " " (literals nod) = head +:+ last).
Proof.
  intros H. split; [|split; [|split]].
  - rewrite toString_spec. now rewrite drop_empty_id.
  - clear H. unfold literals, unhandled.
    induction nod as [|n nod IH]; [reflexivity|].
    rewrite !omap_cons. destruct n; cbn [literal_of length]; lia.
  - intros first rest ->. apply concat_first.
  - intros init last ->. apply concat_last.
Qed.

Lemma toString_joins_witness :
  toString [nodes.String "pg_catalog"; nodes.Other "nodes.A_Const";
            nodes.String "int4"] []
  = (Ok "pg_catalog int4", ["unhandled node type: nodes.A_Const"]).
Proof.
  assert (H : Forall (fun s => s <> "")
                (literals [nodes.String "pg_catalog";
                           nodes.Other "nodes.A_Const"; nodes.String "int4"])).
  { repeat (apply List.Forall_cons; [discriminate|]). apply List.Forall_nil. }
  destruct (toString_joins
              [nodes.String "pg_catalog"; nodes.Other "nodes.A_Const";
               nodes.String "int4"] [] H) as (E & _).
  exact E.
Defined.

(** The condition is needed: the space is written when the buffer is not
    empty (line 195), so an empty literal, which the parser does not give,
    gets no space after it at the head and leaves one at the end. *)
Lemma toString_empty_literal :
  toString [nodes.String ""; nodes.String "a"] [] = (Ok "a", [])
  /\ toString [nodes.String "a"; nodes.String ""] [] = (Ok "a ", []).
Proof. split; reflexivity. Qed.

(** ** The flag [-tables] *)

Lemma Split_commas (n : nat) :
  strings.Split (replicate_string n ",") "," = repeat "" (S n).
Proof.
  induction n as [|n IH]; [reflexivity|].
  cbn [replicate_string strings.Split]. rewrite Ascii.eqb_refl.
  now rewrite IH.
Qed.

Lemma replicate_string_not_empty (n : nat) (c : ascii) :
  replicate_string (S n) c <> "".
Proof. discriminate. Qed.

Lemma tables_commas (n : nat) (name : string) :
  map_index (tables (replicate_string (S n) ",")) name
  = bool_decide (name = "").
Proof.
  rewrite tables_lookup by apply replicate_string_not_empty.
  rewrite Split_commas. apply bool_decide_ext.
  split.
  - intros H. apply list_elem_of_In, repeat_spec in H. exact H.
  - intros ->. apply list_elem_of_here.
Qed.

Lemma filter_nil_names (f : string -> bool) (names : list string) :
  Forall (fun name => f name = false) names -> List.filter f names = [].
Proof.
  induction 1 as [|x l Hx Hl IH]; [reflexivity|].
  cbn [List.filter]. now rewrite Hx.
Qed.

(** C9: for every flag value that is not empty the allowlist is not empty and
    holds exactly the segments between the commas, untrimmed and compared
    byte for byte: the tables produced are those whose relation name is one
    of the segments.  A value made of commas alone gives the allowlist that
    holds the empty string alone, and no table (their names are not empty)
    passes; a segment with a space around it does not match the bare name,
    nor does a name in another case. *)
Theorem allowlist_exact (matchTables name : string) (stmts : list nodes.Node)
  (log : list string) (n : nat) :
  matchTables <> "" ->
  Forall (fun s => populated s = true) (creates stmts) ->
  Forall (fun name => name <> "") (omap relname_of (creates stmts)) ->
  tables matchTables <> ∅
  /\ (map_index (tables matchTables) name = true
      <-> name ∈ strings.Split matchTables ",")
  /\ (exists tbls log',
        extract stmts matchTables log = (Ok tbls, log')
        /\ map Table_Name tbls
           = List.filter
               (fun name => bool_decide (name ∈ strings.Split matchTables ","))
               (omap relname_of (creates stmts)))
  /\ (forall key, tables (replicate_string (S n) ",") !! key
                  = ({[ "" := true ]} : gmap string bool) !! key)
  /\ (exists log',
        extract stmts (replicate_string (S n) ",") log = (Ok [], log'))
  /\ strings.Split "users, posts" "," = ["users"; " posts"]
  /\ map_index (tables "users, posts") "posts" = false
  /\ map_index (tables " users ") "users" = false
  /\ map_index (tables "Users") "users" = false.
Proof.
  intros Hne Hpop Hnames.
  split; [now apply tables_not_empty|].
  split; [rewrite tables_lookup by assumption; apply bool_decide_eq_true|].
  split.
  { eexists _, _. split; [now apply extract_spec|].
    rewrite spec_tables_names by assumption.
    apply List.filter_ext. intros k.
    rewrite passes_not_empty by now apply tables_not_empty.
    now apply tables_lookup. }
  split.
  { intros key. pose proof (tables_commas n key) as H.
    unfold map_index in H.
    destruct (decide (key = "")) as [->|Hk].
    - rewrite lookup_singleton_eq.
      rewrite bool_decide_eq_true_2 in H by reflexivity.
      unfold tables in *. cbn [replicate_string String.eqb negb] in *.
      rewrite fold_insert_lookup in *.
      destruct (bool_decide _); [reflexivity|].
      rewrite lookup_empty in H. discriminate H.
    - rewrite lookup_singleton_ne by congruence.
      rewrite bool_decide_eq_false_2 in H by assumption.
      unfold tables in *. cbn [replicate_string String.eqb negb] in *.
      rewrite fold_insert_lookup in *.
      destruct (bool_decide _); [discriminate H|]. apply lookup_empty. }
  split; [|repeat split; reflexivity].
  eexists. rewrite extract_spec by assumption. f_equal. f_equal.
  apply nil_length_inv.
  rewrite <- (length_map Table_Name), spec_tables_names by assumption.
  rewrite filter_nil_names; [reflexivity|].
  eapply List.Forall_impl; [|exact Hnames]. cbn beta. intros k Hk.
  rewrite passes_not_empty
    by (apply tables_not_empty, replicate_string_not_empty).
  rewrite tables_commas. now apply bool_decide_eq_false_2.
Qed.

Lemma schema_names : Forall (fun name => name <> "") (omap relname_of (creates schema)).
Proof. repeat (apply List.Forall_cons; [discriminate|]). apply List.Forall_nil. Qed.

(** With [-tables ,] no table of the schema is produced; with
    [-tables posts,users] all of them are. *)
Lemma allowlist_exact_witness :
  (exists log', extract schema "," [] = (Ok [], log'))
  /\ (exists tbls log',
        extract schema "posts,users" [] = (Ok tbls, log')
        /\ map Table_Name tbls = ["users"; "posts"; "users"]).
Proof.
  assert (Hne : "posts,users" <> "") by discriminate.
  destruct (allowlist_exact "posts,users" "users" schema [] 0 Hne
              schema_populated schema_names)
    as (_ & _ & (tbls & log' & E & Hn) & _ & Hcommas & _).
  split; [exact Hcommas|].
  exists tbls, log'. split; [exact E|]. rewrite Hn. reflexivity.
Defined.

(** ** The default template *)

Section MainFacts.

Variable table : rune -> rune.
Variables strings_Title strings_ToUpper strings_ToLower : string -> string.
Variable pg_query_Parse : string -> list nodes.Node + string.
Variable format_Source : string -> FormatOutcome.
Variable os_Create : string -> bool.

Lemma render_models (w : World) :
  main_render table strings_Title strings_ToUpper strings_ToLower fragment
    gencodeTmpl models_data w
  = (w, inl models_source).
Proof. vm_compute. reflexivity. Qed.

Lemma render_no_tables (package : string) (w : World) :
  main_render table strings_Title strings_ToUpper strings_ToLower fragment
    gencodeTmpl {| Data_Package := package; Data_Tables := [] |} w
  = (w, inl (header_source package)).
Proof. vm_compute. reflexivity. Qed.

Variable engine : Engine.

Abbreviation main_data' := (main_data pg_query_Parse).
Abbreviation main_render' :=
  (main_render table strings_Title strings_ToUpper strings_ToLower engine).
Abbreviation funcMap' :=
  (funcMap table strings_Title strings_ToUpper strings_ToLower).
Abbreviation main' :=
  (main table strings_Title strings_ToUpper strings_ToLower pg_query_Parse
     engine format_Source os_Create).

(** *** Every step but the last leaves the output as it is *)

Lemma same_output_refl (w : World) : same_output w w.
Proof. now split. Qed.

Lemma same_output_trans (w1 w2 w3 : World) :
  same_output w1 w2 -> same_output w2 w3 -> same_output w1 w3.
Proof. intros [H1 H2] [H3 H4]. split; congruence. Qed.

Lemma same_output_stderr (w : World) (lines : list string) :
  same_output w (write_stderr w lines).
Proof. now split. Qed.

Lemma main_data_frame (fl : Flags) (w : World) :
  same_output w (fst (main_data' fl w)).
Proof.
  unfold main_data, log_Fatalf, stop, continue.
  repeat match goal with
    | |- context [match ?x with _ => _ end] => destruct x
    end; cbn [fst]; apply same_output_stderr.
Qed.

Lemma main_templateText_frame (fl : Flags) (w : World) :
  same_output w (fst (main_templateText fl w)).
Proof.
  unfold main_templateText, log_Fatalf, stop, continue.
  repeat match goal with
    | |- context [match ?x with _ => _ end] => destruct x
    end; cbn [fst];
    first [apply same_output_stderr | apply same_output_refl].
Qed.

Lemma main_render_frame (templateText : string) (data : Data) (w : World) :
  same_output w (fst (main_render' templateText data w)).
Proof.
  unfold main_render, log_Fatalf, stop, continue.
  repeat match goal with
    | |- context [match ?x with _ => _ end] => destruct x
    end; cbn [fst];
    first [apply same_output_stderr | apply same_output_refl].
Qed.

Lemma main_format_frame (buf : string) (w : World) :
  same_output w (fst (main_format format_Source buf w)).
Proof.
  unfold main_format, log_Fatalf, stop, continue.
  destruct (format_Source buf); cbn [fst];
    [apply same_output_refl | now split].
Qed.

(** What a run went through when [main] returns, and what it is otherwise. *)
Lemma main_cases (fl : Flags) (w : World) :
  (snd (main' fl w) <> Returned /\ same_output w (fst (main' fl w)))
  \/ (exists data w1 templateText tmpl buf formatted,
        same_output w w1
        /\ main_data' fl w = (w1, inl data)
        /\ main_templateText fl w1 = (w1, inl templateText)
        /\ Engine_Parse engine funcMap' templateText = inl (Some tmpl)
        /\ Engine_Execute engine funcMap' tmpl data = (buf, template.Finished)
        /\ format_Source buf = Formatted formatted
        /\ main' fl w
           = (if String.eqb (outputFile fl) ""
              then write_stdout w1 formatted
              else write_file w1 (outputFile fl) formatted, Returned)).
Proof.
  unfold main, and_then.
  pose proof (main_data_frame fl w) as F1.
  destruct (main_data' fl w) as [w1 [data|e]] eqn:E1; cbn [fst] in F1;
    [|left; cbn [fst snd]; split; [|exact F1];
      revert E1; unfold main_data, log_Fatalf, stop, continue;
      repeat match goal with
        | |- context [match ?x with _ => _ end] => destruct x
        end; intros [= <- <-]; discriminate].
  pose proof (main_templateText_frame fl w1) as F2.
  destruct (main_templateText fl w1) as [w2 [templateText|e]] eqn:E2;
    cbn [fst] in F2;
    [|left; cbn [fst snd]; split; [|eapply same_output_trans; eassumption];
      revert E2; unfold main_templateText, log_Fatalf, stop, continue;
      repeat match goal with
        | |- context [match ?x with _ => _ end] => destruct x
        end; intros [= <- <-]; discriminate].
  assert (w2 = w1) as ->.
  { revert E2. unfold main_templateText, log_Fatalf, stop, continue.
    repeat match goal with
      | |- context [match ?x with _ => _ end] => destruct x
      end; now intros [= <- _]. }
  unfold main_render, log_Fatalf, stop, continue.
  destruct (Engine_Parse engine funcMap' templateText) as [[tmpl|]|err] eqn:EP;
    [ | left; cbn [fst snd]; split; [discriminate | exact F1]
      | left; cbn [fst snd]; split;
        [discriminate
        | eapply same_output_trans; [exact F1 | apply same_output_stderr]] ].
  destruct (Engine_Execute engine funcMap' tmpl data) as [buf [ | err | ]] eqn:EX;
    [ | left; cbn [fst snd]; split;
        [discriminate
        | eapply same_output_trans; [exact F1 | apply same_output_stderr]]
      | left; cbn [fst snd]; split; [discriminate | exact F1] ].
  unfold main_format, log_Fatalf, stop, continue.
  destruct (format_Source buf) as [formatted|err] eqn:EF;
    [ | left; cbn [fst snd]; split;
        [discriminate | eapply same_output_trans; [exact F1 | now split]] ].
  unfold main_write, log_Fatalf, stop, continue.
  destruct (String.eqb (outputFile fl) "") eqn:EO; cbn [negb].
  - right. exists data, w1, templateText, tmpl, buf, formatted.
    repeat (split; [assumption || reflexivity|]). reflexivity.
  - destruct (os_Create (outputFile fl)) eqn:EC.
    + right. exists data, w1, templateText, tmpl, buf, formatted.
      repeat (split; [assumption || reflexivity|]). reflexivity.
    + left. cbn [fst snd]. split; [discriminate|].
      eapply same_output_trans; [exact F1 | apply same_output_stderr].
Qed.

(** C6: a template that does not parse ends the run in [log.Fatalf] before
    anything is executed or written; rendered text that the formatter
    refuses is copied to the standard error and the run ends in
    [log.Fatalf]; whenever [main] does not return (a fatal error, a panic)
    the files and the standard output are what they were; and when [main]
    returns, the destination holds the text the formatter returned for the
    text the template rendered, and nothing else was written. *)
Theorem main_fatal_errors (fl : Flags) (w w1 : World) (data : Data)
  (templateText : string) :
  main_data' fl w = (w1, inl data) ->
  main_templateText fl w1 = (w1, inl templateText) ->
  (forall err,
      Engine_Parse engine funcMap' templateText = inr err ->
      main' fl w
      = (write_stderr w1 ["unable to parse template: " +:+ err], Exited 1)
      /\ same_output w (fst (main' fl w)))
  /\ (forall tmpl buf err,
        Engine_Parse engine funcMap' templateText = inl (Some tmpl) ->
        Engine_Execute engine funcMap' tmpl data = (buf, template.Finished) ->
        format_Source buf = FormatError err ->
        main' fl w
        = (write_stderr w1 [buf; "generated bad code: " +:+ err], Exited 1)
        /\ same_output w (fst (main' fl w)))
  /\ (forall fl w,
        snd (main' fl w) <> Returned -> same_output w (fst (main' fl w)))
  /\ (forall fl w,
        snd (main' fl w) = Returned ->
        exists data w1 templateText tmpl buf formatted,
          same_output w w1
          /\ Engine_Parse engine funcMap' templateText = inl (Some tmpl)
          /\ Engine_Execute engine funcMap' tmpl data = (buf, template.Finished)
          /\ format_Source buf = Formatted formatted
          /\ fst (main' fl w)
             = if String.eqb (outputFile fl) ""
               then write_stdout w1 formatted
               else write_file w1 (outputFile fl) formatted).
Proof.
  intros E1 E2.
  assert (Hframe : forall fl w,
             snd (main' fl w) <> Returned -> same_output w (fst (main' fl w))).
  { intros fl0 w0 Hne.
    destruct (main_cases fl0 w0) as [[_ H]|H]; [exact H|].
    destruct H as (? & ? & ? & ? & ? & ? & _ & _ & _ & _ & _ & _ & E).
    rewrite E in Hne. now contradiction Hne. }
  split; [|split; [|split]].
  - intros err EP.
    assert (E : main' fl w
                = (write_stderr w1 ["unable to parse template: " +:+ err],
                   Exited 1)).
    { unfold main, and_then. rewrite E1, E2.
      unfold main_render, log_Fatalf, stop. now rewrite EP. }
    split; [exact E|]. apply Hframe. rewrite E. discriminate.
  - intros tmpl buf err EP EX EF.
    assert (E : main' fl w
                = (write_stderr w1 [buf; "generated bad code: " +:+ err],
                   Exited 1)).
    { unfold main, and_then. rewrite E1, E2.
      unfold main_render, continue. rewrite EP, EX.
      unfold main_format, log_Fatalf, stop. rewrite EF.
      unfold write_stderr. cbn [files stdout stderr].
      now rewrite <- app_assoc. }
    split; [exact E|]. apply Hframe. rewrite E. discriminate.
  - exact Hframe.
  - intros fl0 w0 Hret.
    destruct (main_cases fl0 w0) as [[Hne _]|H]; [contradiction|].
    destruct H as (d & w' & text & tmpl & buf & formatted
                   & F & _ & _ & EP & EX & EF & E).
    exists d, w', text, tmpl, buf, formatted.
    repeat (split; [assumption|]). now rewrite E.
Qed.

End MainFacts.

(** ** Runs of [main] on the example schema *)

Abbreviation example_main format_Source :=
  (main unicode.Latin1Title (fun s => s) (fun s => s) (fun s => s)
     schema_parser fragment format_Source (fun _ => true)).

(** A template whose [range] is not closed, and a template that renders
    prose: both runs exit with status 1 and leave the files and the standard
    output as they were. *)
Lemma main_fatal_errors_witness :
  (snd (example_main accept_all (flags "" "out.go" "broken.tmpl") template_world)
   = Exited 1
   /\ same_output template_world
        (fst (example_main accept_all (flags "" "out.go" "broken.tmpl")
                template_world)))
  /\ (example_main refuse_all (flags "" "out.go" "prose.tmpl") template_world
      = (write_stderr template_world
           ["tables of models"; "generated bad code: expected declaration"],
         Exited 1)).
Proof.
  pose (data := {| Data_Package := "models";
                   Data_Tables := [users_table; posts_table; users_again_table] |}).
  split.
  - assert (E1 : main_data schema_parser (flags "" "out.go" "broken.tmpl") template_world
                 = (template_world, inl data)) by (vm_compute; reflexivity).
    assert (E2 : main_templateText (flags "" "out.go" "broken.tmpl") template_world
                 = (template_world, inl "{{range .Tables}}")) by (vm_compute; reflexivity).
    destruct (main_fatal_errors unicode.Latin1Title (fun s => s) (fun s => s)
                (fun s => s) schema_parser accept_all (fun _ => true) fragment
                _ _ _ _ _ E1 E2) as (Ha & _).
    destruct (Ha "unexpected EOF") as [E F]; [vm_compute; reflexivity|].
    split; [now rewrite E | exact F].
  - assert (E1 : main_data schema_parser (flags "" "out.go" "prose.tmpl") template_world
                 = (template_world, inl data)) by (vm_compute; reflexivity).
    assert (E2 : main_templateText (flags "" "out.go" "prose.tmpl") template_world
                 = (template_world, inl "tables of {{.Package}}")) by (vm_compute; reflexivity).
    destruct (main_fatal_errors unicode.Latin1Title (fun s => s) (fun s => s)
                (fun s => s) schema_parser refuse_all (fun _ => true) fragment
                _ _ _ _ _ E1 E2) as (_ & Hb & _).
    destruct (template.Parse
                (funcMap unicode.Latin1Title (fun s => s) (fun s => s)
                   (fun s => s)) "tables of {{.Package}}") as [t| |] eqn:EP;
      [|vm_compute in EP; discriminate EP|vm_compute in EP; discriminate EP].
    destruct (Hb t "tables of models" "expected declaration") as [E _].
    + cbn [Engine_Parse fragment]. now rewrite EP.
    + vm_compute in EP. injection EP as <-. vm_compute. reflexivity.
    + reflexivity.
    + exact E.
Defined.

(** * Further properties *)

(** ** The extractor and the nil dereferences *)

Lemma columns_loop_panics (items : list nodes.Node) (acc : list Column)
  (log : list string) :
  forallb populated_element items = false ->
  fst (columns_loop items acc log) = Panicked.
Proof.
  revert acc log. induction items as [|n items IH]; intros acc log H.
  - discriminate H.
  - cbn [forallb] in H.
    destruct n as [| | |[name|] [names|]| |]; cbn [populated_element] in H;
      cbn [columns_loop bind deref]; try (now apply IH); try reflexivity.
    unfold bind at 1. rewrite toString_spec. now apply IH.
Qed.

Lemma tables_loop_readable (createTables : list nodes.CreateStmtValue)
  (allow : gmap string bool) (acc : list Table) (log : list string) :
  forallb (readable allow) createTables = true ->
  tables_loop createTables allow acc log
  = (Ok (acc ++ omap table_of (List.filter (passes_create allow) createTables)),
     log ++ tables_log allow createTables).
Proof.
  revert acc log. induction createTables as [|s rest IH]; intros acc log H.
  - cbn. now rewrite !app_nil_r.
  - cbn [forallb] in H. apply andb_true_iff in H as [Hs H].
    unfold readable in Hs. unfold tables_log in *.
    cbn [tables_loop List.filter].
    destruct (relname_of s) as [name|] eqn:Hrel; [|discriminate Hs].
    assert (Hd : exists relation, nodes.Relation s = Some relation
                                  /\ nodes.Relname relation = Some name).
    { unfold relname_of in Hrel.
      destruct (nodes.Relation s) as [relation|]; [|discriminate Hrel].
      now exists relation. }
    destruct Hd as (relation & HR & HN).
    rewrite HR. cbn [bind deref]. rewrite HN. cbn [bind deref].
    assert (Hp : passes_create allow s = passes allow name)
      by (unfold passes_create; now rewrite Hrel).
    rewrite Hp. unfold passes in *.
    destruct ((0 <? size allow)%nat && negb (map_index allow name)) eqn:E;
      cbn [negb] in *.
    + now apply IH.
    + unfold bind at 1. rewrite columns_loop_spec by assumption.
      rewrite IH by assumption. rewrite omap_cons. unfold table_of at 2.
      rewrite Hrel. cbn [flat_map app]. rewrite <- !app_assoc. reflexivity.
Qed.

Lemma tables_loop_panics (createTables : list nodes.CreateStmtValue)
  (allow : gmap string bool) (acc : list Table) (log : list string) :
  forallb (readable allow) createTables = false ->
  fst (tables_loop createTables allow acc log) = Panicked.
Proof.
  revert acc log. induction createTables as [|s rest IH]; intros acc log H.
  - discriminate H.
  - cbn [forallb] in H. cbn [tables_loop].
    unfold readable, relname_of in H.
    destruct (nodes.Relation s) as [relation|]; [|reflexivity].
    cbn [bind deref].
    destruct (nodes.Relname relation) as [name|]; [|reflexivity].
    cbn [bind deref]. unfold passes in H.
    destruct ((0 <? size allow)%nat && negb (map_index allow name)) eqn:E;
      cbn [negb] in H.
    + cbn [andb] in H. now apply IH.
    + unfold bind at 1.
      destruct (forallb populated_element (nodes.TableElts s)) eqn:Hc.
      * rewrite columns_loop_spec by assumption. cbn [andb] in H.
        now apply IH.
      * pose proof (columns_loop_panics (nodes.TableElts s) [] log Hc) as Hp.
        destruct (columns_loop (nodes.TableElts s) [] log) as [[cols|] l];
          [discriminate Hp | reflexivity].
Qed.

Lemma extract_readable (stmts : list nodes.Node) (matchTables : string)
  (log : list string) :
  fst (extract stmts matchTables log)
  = if forallb (readable (tables matchTables)) (creates stmts)
    then Ok (spec_tables stmts (tables matchTables))
    else Panicked.
Proof.
  rewrite extract_outcome. cbn [fst].
  destruct (forallb (readable (tables matchTables)) (creates stmts)) eqn:E.
  - now rewrite tables_loop_readable.
  - now apply tables_loop_panics.
Qed.

(** Extraction ends without a panic exactly when every table-creation
    statement has its relation name and the column definitions of those that
    pass the allowlist have their name and type name; it then returns one
    table for each statement that passes, and the log holds the lines of the
    walk followed by the lines of the type names read.  The columns of a
    statement that the allowlist rejects are never read. *)
Theorem extract_outcome_exact (stmts : list nodes.Node) (matchTables : string)
  (log : list string) :
  if forallb (readable (tables matchTables)) (creates stmts)
  then extract stmts matchTables log
       = (Ok (spec_tables stmts (tables matchTables)),
          log ++ unexpected stmts
              ++ tables_log (tables matchTables) (creates stmts))
  else fst (extract stmts matchTables log) = Panicked.
Proof.
  destruct (forallb (readable (tables matchTables)) (creates stmts)) eqn:E.
  - unfold extract, bind. rewrite createTables_loop_spec. cbn [app].
    rewrite tables_loop_readable by assumption.
    unfold spec_tables. cbn [app]. now rewrite <- app_assoc.
  - now rewrite extract_readable, E.
Qed.

Lemma List_filter_omap_app (allow : gmap string bool)
  (l1 l2 : list nodes.CreateStmtValue) :
  omap table_of (List.filter (passes_create allow) (l1 ++ l2))
  = omap table_of (List.filter (passes_create allow) l1)
    ++ omap table_of (List.filter (passes_create allow) l2).
Proof. now rewrite List.filter_app, omap_app. Qed.

(** Extraction of two statement lists put end to end: it panics when
    extraction of either does, and otherwise returns the tables of the first
    followed by the tables of the second. *)
Theorem extract_app (stmts1 stmts2 : list nodes.Node) (matchTables : string)
  (log : list string) :
  fst (extract (stmts1 ++ stmts2) matchTables log)
  = match fst (extract stmts1 matchTables log),
          fst (extract stmts2 matchTables log) with
    | Ok tables1, Ok tables2 => Ok (tables1 ++ tables2)
    | _, _ => Panicked
    end.
Proof.
  rewrite !extract_readable, creates_app, forallb_app.
  unfold spec_tables. rewrite creates_app, List_filter_omap_app.
  destruct (forallb _ (creates stmts1)), (forallb _ (creates stmts2));
    reflexivity.
Qed.

(** *** The allowlist rejects a statement whole *)

Lemma tables_loop_app (l1 l2 : list nodes.CreateStmtValue)
  (allow : gmap string bool) (acc : list Table) (log : list string) :
  tables_loop (l1 ++ l2) allow acc log
  = bind (tables_loop l1 allow acc) (fun acc' => tables_loop l2 allow acc') log.
Proof.
  unfold bind. revert acc log.
  induction l1 as [|s l1 IH]; intros acc log; [reflexivity|].
  cbn [app tables_loop]. unfold bind.
  destruct (nodes.Relation s) as [relation|]; cbn [deref]; [|reflexivity].
  destruct (nodes.Relname relation) as [name|]; cbn [deref]; [|reflexivity].
  destruct ((0 <? size allow)%nat && negb (map_index allow name)).
  - apply IH.
  - destruct (columns_loop (nodes.TableElts s) [] log) as [[cols|] l];
      [apply IH | reflexivity].
Qed.

Lemma tables_loop_rejected (s : nodes.CreateStmtValue)
  (rest : list nodes.CreateStmtValue) (allow : gmap string bool)
  (name : string) (acc : list Table) (log : list string) :
  relname_of s = Some name -> passes allow name = false ->
  tables_loop (s :: rest) allow acc log = tables_loop rest allow acc log.
Proof.
  intros Hrel Hp. cbn [tables_loop]. unfold relname_of in Hrel.
  destruct (nodes.Relation s) as [relation|]; [|discriminate Hrel].
  cbn [bind deref]. rewrite Hrel. cbn [bind deref].
  unfold passes in Hp. apply negb_false_iff in Hp. now rewrite Hp.
Qed.

(** A table-creation statement whose name the allowlist rejects leaves no
    trace: with it or without it extraction has the same outcome and logs
    the same lines, whatever its elements are (they are not read). *)
Theorem extract_rejected (pre post : list nodes.Node) (n : nodes.Node)
  (s : nodes.CreateStmtValue) (name matchTables : string) (log : list string) :
  create_of n = Some s ->
  relname_of s = Some name ->
  passes (tables matchTables) name = false ->
  extract (pre ++ n :: post) matchTables log
  = extract (pre ++ post) matchTables log.
Proof.
  intros Hn Hrel Hp. unfold extract, bind.
  rewrite !createTables_loop_spec. cbn [app].
  assert (Hc : creates (pre ++ n :: post)
               = creates pre ++ s :: creates post).
  { rewrite creates_app. unfold creates. now rewrite omap_cons, Hn. }
  assert (Hu : unexpected (pre ++ n :: post) = unexpected (pre ++ post)).
  { rewrite !unexpected_app. f_equal. unfold unexpected.
    rewrite omap_cons.
    destruct n as [|[]| | | |]; try discriminate Hn; reflexivity. }
  rewrite Hc, Hu, creates_app, !tables_loop_app. unfold bind.
  destruct (tables_loop (creates pre) (tables matchTables) []
              (log ++ unexpected (pre ++ post))) as [[acc|] l];
    [|reflexivity].
  now apply tables_loop_rejected with (name := name).
Qed.

(** With [-tables posts] a [users] statement whose column has no type name
    changes nothing, though reading that column would panic. *)
Lemma extract_rejected_witness :
  extract [nodes.RawStmt untyped_users; nodes.RawStmt create_posts] "posts" []
  = (Ok [posts_table], [])
  /\ fst (extract [nodes.RawStmt untyped_users; nodes.RawStmt create_posts]
            "" [])
     = Panicked.
Proof.
  split; [|vm_compute; reflexivity].
  assert (Hp : passes (tables "posts") "users" = false)
    by (vm_compute; reflexivity).
  pose proof (extract_rejected [] [nodes.RawStmt create_posts]
                (nodes.RawStmt untyped_users)
                {| nodes.Relation := relation "users";
                   nodes.TableElts := [nodes.ColumnDef (Some "id") None] |}
                "users" "posts" [] eq_refl eq_refl Hp) as H.
  cbn [app] in H. rewrite H. vm_compute. reflexivity.
Defined.

(** *** The allowlist counts through membership only *)

Lemma tables_loop_passes (createTables : list nodes.CreateStmtValue)
  (allow1 allow2 : gmap string bool) (acc : list Table) (log : list string) :
  Forall (fun name => passes allow1 name = passes allow2 name)
    (omap relname_of createTables) ->
  tables_loop createTables allow1 acc log
  = tables_loop createTables allow2 acc log.
Proof.
  revert acc log. induction createTables as [|s rest IH]; intros acc log H;
    [reflexivity|].
  cbn [tables_loop]. rewrite omap_cons in H. unfold relname_of in H.
  destruct (nodes.Relation s) as [relation|]; cbn [bind deref];
    [|reflexivity].
  destruct (nodes.Relname relation) as [name|]; cbn [bind deref];
    [|reflexivity].
  apply Forall_cons_1 in H as [Hn H]. unfold passes in Hn.
  apply (f_equal negb) in Hn. rewrite !negb_involutive in Hn. rewrite Hn.
  destruct ((0 <? size allow2)%nat && negb (map_index allow2 name));
    [now apply IH|].
  unfold bind.
  destruct (columns_loop (nodes.TableElts s) [] log) as [[cols|] l];
    [now apply IH | reflexivity].
Qed.

(** Two values of [-tables], neither empty, that hold the same relation
    names of the schema give the same run of the extractor: the order of the
    names in the flag, their repetition and the names of tables that are not
    in the schema do not count. *)
Theorem extract_allowlist_membership (stmts : list nodes.Node)
  (matchTables1 matchTables2 : string) (log : list string) :
  matchTables1 <> "" -> matchTables2 <> "" ->
  Forall (fun name =>
            name ∈ strings.Split matchTables1 ","
            <-> name ∈ strings.Split matchTables2 ",")
    (relnames stmts) ->
  extract stmts matchTables1 log = extract stmts matchTables2 log.
Proof.
  intros H1 H2 H. unfold extract, bind.
  rewrite createTables_loop_spec. apply tables_loop_passes.
  eapply List.Forall_impl; [|exact H]. cbn beta. intros name Hn.
  rewrite !passes_not_empty by now apply tables_not_empty.
  rewrite !tables_lookup by assumption.
  now apply bool_decide_ext.
Qed.

Lemma extract_allowlist_membership_witness :
  extract schema "posts,users" [] = extract schema "users,absent,posts,users" [].
Proof.
  apply extract_allowlist_membership; try discriminate.
  change (relnames schema) with ["users"; "posts"; "users"].
  change (strings.Split "posts,users" ",") with ["posts"; "users"].
  change (strings.Split "users,absent,posts,users" ",")
    with ["users"; "absent"; "posts"; "users"].
  repeat (apply List.Forall_cons;
          [split; intros _; repeat constructor|]).
  apply List.Forall_nil.
Defined.

(** ** Names the flag [-tables] cannot select *)

Lemma Split_no_separator (s : string) (sep : ascii) :
  Forall (fun part => ~ In sep (list_ascii_of_string part))
    (strings.Split s sep).
Proof.
  induction s as [|c rest IH]; cbn [strings.Split].
  - constructor; [|constructor]. intros [].
  - destruct (Ascii.eqb c sep) eqn:E.
    + constructor; [intros [] | exact IH].
    + destruct (strings.Split rest sep) as [|part parts];
        [constructor; [|constructor]|].
      * cbn. intros [->|[]]. now rewrite Ascii.eqb_refl in E.
      * apply Forall_cons_1 in IH as [Hp Hps]. constructor; [|exact Hps].
        cbn. intros [->|H]; [now rewrite Ascii.eqb_refl in E | now apply Hp].
Qed.

(** The flag is cut at every comma, so no segment has one: with a flag
    that is not empty, every table returned has a name without a comma,
    and a table whose name has one is never returned, whatever the flag
    says. *)
Theorem extract_comma_names (stmts : list nodes.Node) (matchTables : string)
  (log : list string) (data_Tables : list Table) :
  matchTables <> "" ->
  fst (extract stmts matchTables log) = Ok data_Tables ->
  Forall (fun t => Table_Name t ∈ strings.Split matchTables ","
                   /\ ~ In ","%char (list_ascii_of_string (Table_Name t)))
    data_Tables.
Proof.
  intros Hm H. rewrite extract_readable in H.
  destruct (forallb _ _); [|discriminate H]. injection H as <-.
  apply List.Forall_forall. intros t Ht. apply list_elem_of_In in Ht.
  unfold spec_tables in Ht. apply list_elem_of_omap in Ht as (s & Hs & Hts).
  apply list_elem_of_In, List.filter_In in Hs as [_ Hp].
  unfold table_of in Hts. unfold passes_create in Hp.
  destruct (relname_of s) as [name|]; [|discriminate Hts].
  injection Hts as <-. cbn [Table_Name].
  rewrite passes_not_empty in Hp by now apply tables_not_empty.
  rewrite tables_lookup in Hp by assumption.
  apply bool_decide_eq_true in Hp. split; [exact Hp|].
  pose proof (Split_no_separator matchTables ",") as Hn.
  rewrite List.Forall_forall in Hn. apply Hn. now apply list_elem_of_In.
Qed.

(** The table [a,b] is not returned for [-tables a,b,posts]. *)
Lemma extract_comma_names_witness :
  fst (extract [create_comma; nodes.RawStmt create_posts] "a,b,posts" [])
  = Ok [posts_table]
  /\ Forall (fun t => Table_Name t ∈ strings.Split "a,b,posts" ","
                      /\ ~ In ","%char (list_ascii_of_string (Table_Name t)))
       [posts_table].
Proof.
  assert (H : fst (extract [create_comma; nodes.RawStmt create_posts]
                     "a,b,posts" [])
              = Ok [posts_table]) by (vm_compute; reflexivity).
  split; [exact H|].
  apply (extract_comma_names [create_comma; nodes.RawStmt create_posts]
           "a,b,posts" [] [posts_table]); [discriminate | exact H].
Defined.

(** ** The default template, for every [Data] *)

Lemma concat_empty_cons (x : string) (xs : list string) :
  String.concat "" (x :: xs) = x +:+ String.concat "" xs.
Proof. destruct xs; [symmetry; apply append_nil_r | reflexivity]. Qed.

Lemma exec_RangeNode (funcs : template.FuncMap) (p : template.Pipe)
  (body : list template.Node) (dot : template.Value) :
  template.exec funcs (template.RangeNode p body) dot
  = match template.eval funcs p dot with
    | template.Val (template.VSlice items) => exec_each funcs body items
    | template.Val _ => ("", template.ExecOutside)
    | template.EvalFailed err => ("", template.ExecFailed err)
    | template.EvalOutside => ("", template.ExecOutside)
    end.
Proof.
  cbn [template.exec].
  destruct (template.eval funcs p dot) as [[s|items|fields]|err|];
    try reflexivity.
  induction items as [|v rest IH]; [reflexivity|].
  cbn [exec_each]. rewrite <- IH. f_equal.
  clear. induction body as [|n ns IHb]; [reflexivity|].
  cbn [template.exec_list]. now rewrite <- IHb.
Qed.

(** When the body finishes on every item, the loop writes what the body
    writes for each item, one after the other. *)
Lemma exec_each_finished (funcs : template.FuncMap) (body : list template.Node)
  {A : Type} (value : A -> template.Value) (text : A -> string) (l : list A) :
  (forall a, template.exec_list funcs body (value a)
             = (text a, template.Finished)) ->
  exec_each funcs body (map value l)
  = (String.concat "" (map text l), template.Finished).
Proof.
  intros H. induction l as [|a l IH]; [reflexivity|].
  cbn [map exec_each]. rewrite H, IH. cbn [template.then_].
  now rewrite concat_empty_cons.
Qed.

Lemma exec_list_finished (funcs : template.FuncMap) (n : template.Node)
  (rest : list template.Node) (dot : template.Value) (a b : string) :
  template.exec funcs n dot = (a, template.Finished) ->
  template.exec_list funcs rest dot = (b, template.Finished) ->
  template.exec_list funcs (n :: rest) dot = (a +:+ b, template.Finished).
Proof. intros Ha Hb. cbn [template.exec_list]. now rewrite Ha, Hb. Qed.

Lemma exec_range_finished (funcs : template.FuncMap) (field : string)
  (body : list template.Node) (dot : template.Value)
  (items : list template.Value) (text : string) :
  template.eval funcs (template.PField field) dot
  = template.Val (template.VSlice items) ->
  exec_each funcs body items = (text, template.Finished) ->
  template.exec funcs (template.RangeNode (template.PField field) body) dot
  = (text, template.Finished).
Proof. intros He Hb. now rewrite exec_RangeNode, He. Qed.

Lemma finished_text (o : template.ExecOutcome) (s t : string) :
  o = (s, template.Finished) -> s = t -> o = (t, template.Finished).
Proof. now intros -> ->. Qed.

Section DefaultTemplate.

Variable table : rune -> rune.
Variables strings_Title strings_ToUpper strings_ToLower : string -> string.

Abbreviation funcs :=
  (funcMap table strings_Title strings_ToUpper strings_ToLower).

Lemma funcMap_GoTitle : funcs !! "GoTitle" = Some (goTitleCase table).
Proof.
  unfold funcMap, template.FuncMap. rewrite !lookup_insert_ne by discriminate.
  apply lookup_insert_eq.
Qed.

Lemma exec_GoTitle (field : string) (dot : template.Value) (s : string) :
  template.eval funcs (template.PField field) dot
  = template.Val (template.VString s) ->
  template.exec funcs
    (template.ActionNode (template.PCall "GoTitle" (template.PField field))) dot
  = (goTitleCase table s, template.Finished).
Proof.
  intros H. cbn [template.exec]. cbn [template.eval] in *.
  now rewrite H, funcMap_GoTitle.
Qed.

(** Text and the fields of the dot, node after node. *)
Ltac exec_nodes range :=
  repeat first
    [ reflexivity
    | apply exec_list_finished
    | apply exec_GoTitle; reflexivity
    | eapply exec_range_finished; [reflexivity | range] ].

Ltac join_text :=
  rewrite ?append_assoc, ?append_nil_r; reflexivity.

Lemma exec_column_fields (body : list template.Node) (cols : list Column) :
  body = [template.TextNode (NL +:+ TAB);
          template.ActionNode (template.PCall "GoTitle" (template.PField "Name"));
          template.TextNode " string // ";
          template.ActionNode (template.PField "Type")] ->
  exec_each funcs body (map Column_value cols)
  = (String.concat "" (map (column_field table) cols), template.Finished).
Proof.
  intros ->. apply exec_each_finished. intros c.
  eapply finished_text; [exec_nodes fail | unfold column_field; join_text].
Qed.

Lemma exec_column_values (body : list template.Node) (cols : list Column) :
  body = [template.TextNode DQ;
          template.ActionNode (template.PField "Name");
          template.TextNode (DQ +:+ ",")] ->
  exec_each funcs body (map Column_value cols)
  = (String.concat "" (map column_value cols), template.Finished).
Proof.
  intros ->. apply exec_each_finished. intros c.
  eapply finished_text; [exec_nodes fail | unfold column_value; join_text].
Qed.

Lemma exec_tables (body : list template.Node) (tables : list Table) :
  template.Parse funcs gencodeTmpl
  = template.Parsed
      [template.TextNode
         ("// Code generated by pgsqlconsts; DO NOT EDIT." +:+ NL
          +:+ "package ");
       template.ActionNode (template.PField "Package");
       template.TextNode (NL +:+ NL);
       template.RangeNode (template.PField "Tables") body;
       template.TextNode NL] ->
  exec_each funcs body (map Table_value tables)
  = (String.concat "" (map (table_source table) tables), template.Finished).
Proof.
  intros H. vm_compute in H. injection H as <-.
  apply exec_each_finished. intros t.
  eapply finished_text;
    [exec_nodes ltac:(first [ now apply exec_column_fields
                            | now apply exec_column_values ])
    | unfold table_source; join_text].
Qed.

Lemma render_default (data : Data) (w : World) :
  main_render table strings_Title strings_ToUpper strings_ToLower fragment
    gencodeTmpl data w
  = (w, inl (default_source table data)).
Proof.
  unfold main_render. cbn [Engine_Parse Engine_Execute fragment].
  destruct (template.Parse funcs gencodeTmpl) as [tree| |] eqn:E;
    [|vm_compute in E; discriminate E|vm_compute in E; discriminate E].
  pose proof E as E'. vm_compute in E'. injection E' as <-.
  unfold template.Execute.
  match goal with
  | |- context [template.exec_list funcs ?t ?d] =>
      assert (X : template.exec_list funcs t d
                  = (default_source table data, template.Finished))
  end.
  { eapply finished_text;
      [exec_nodes ltac:(now apply (exec_tables _ _ E))
      | unfold default_source; join_text]. }
  now rewrite X.
Qed.

(** Whatever the package name, the names of the tables and of the columns
    and the type names are (any bytes at all), the default template parses
    and its execution finishes: it writes the header, the package clause
    and, for each table in order, a comment, a variable with one field for
    the table name and one for each column in order, and their values.
    For no table that is [header_source], for the table [users] of the
    package [models] it is [models_source]. *)
Theorem default_template_renders (data : Data) (w : World) :
  main_render table strings_Title strings_ToUpper strings_ToLower fragment
    gencodeTmpl data w
  = (w, inl (default_source table data))
  /\ default_source table
       {| Data_Package := Data_Package data; Data_Tables := [] |}
     = header_source (Data_Package data)
  /\ default_source table models_data = models_source.
Proof.
  split; [apply render_default|]. split; [reflexivity|].
  vm_compute. reflexivity.
Qed.

End DefaultTemplate.

(** ** The formatter on the text of the default template *)

Lemma Split_line (l rest : string) (sep : ascii) :
  ~ In sep (list_ascii_of_string l) ->
  strings.Split (l +:+ String sep rest) sep = l :: strings.Split rest sep.
Proof.
  induction l as [|c l IH]; intros H.
  - cbn [strings.Split String.append]. change ("" +:+ String sep rest)
      with (String sep rest). cbn [strings.Split].
    now rewrite Ascii.eqb_refl.
  - change (String c l +:+ String sep rest)
      with (String c (l +:+ String sep rest)).
    cbn [strings.Split]. cbn [list_ascii_of_string In] in H.
    destruct (Ascii.eqb c sep) eqn:E.
    + apply Ascii.eqb_eq in E. subst c. exfalso. apply H. now left.
    + rewrite IH by tauto. reflexivity.
Qed.

Lemma scan_letters (s cur : string) :
  forallb (fun c => format.is_letter c || format.is_digit c)
    (list_ascii_of_string s) = true ->
  cur <> "" ->
  format.scan s (format.InCode cur) = Some [format.word (cur +:+ s)].
Proof.
  revert cur. induction s as [|c s IH]; intros cur Hs Hc.
  - cbn [format.scan]. rewrite append_nil_r.
    destruct cur; [now contradiction Hc | reflexivity].
  - cbn [list_ascii_of_string forallb] in Hs.
    apply andb_true_iff in Hs as [Hl Hs].
    assert (E : format.scan (String c s) (format.InCode cur)
                = format.scan s (format.InCode (format.snoc cur c))).
    { cbn [format.scan]. destruct (format.is_letter c); [reflexivity|].
      cbn [orb] in Hl. rewrite Hl.
      destruct cur; [now contradiction Hc | reflexivity]. }
    rewrite E, IH; [|exact Hs|unfold format.snoc; now destruct cur].
    unfold format.snoc. now rewrite append_assoc.
Qed.

Lemma scan_identifier (s : string) :
  format.is_identifier s = true ->
  format.scan s (format.InCode "") = Some [format.word s].
Proof.
  destruct s as [|c s]; [discriminate|]. cbn [format.is_identifier].
  intros H. apply andb_true_iff in H as [Hc Hs].
  cbn [format.scan]. rewrite Hc.
  now rewrite scan_letters by (assumption || discriminate).
Qed.

Lemma identifier_no_newline (s : string) :
  format.is_identifier s = true ->
  ~ In (ascii_of_nat 10) (list_ascii_of_string s).
Proof.
  intros H Hin.
  assert (Hall : forallb (fun c => format.is_letter c || format.is_digit c)
                   (list_ascii_of_string s) = true).
  { destruct s as [|c s]; [discriminate H|]. cbn [format.is_identifier] in H.
    apply andb_true_iff in H as [Hc Hs].
    cbn [list_ascii_of_string forallb]. now rewrite Hc, Hs. }
  rewrite forallb_forall in Hall. specialize (Hall _ Hin).
  vm_compute in Hall. discriminate Hall.
Qed.

Lemma scan_package (rest : string) :
  format.scan ("package " +:+ rest) (format.InCode "")
  = option_map (cons (format.word "package"))
      (format.scan rest (format.InCode "")).
Proof. reflexivity. Qed.

Lemma classify_package (package : string) :
  format.is_identifier package = true ->
  package ∉ format.keywords ->
  format.classify ("package " +:+ package)
  = Some (format.TokenLine [format.KEYWORD "package"; format.IDENT package]).
Proof.
  intros Hi Hk.
  assert (E : format.classify ("package " +:+ package)
              = match format.scan ("package " +:+ package) (format.InCode "")
                with
                | Some [] => Some format.BlankLine
                | Some (format.COMMENT _ :: _) => None
                | Some tokens => Some (format.TokenLine tokens)
                | None => None
                end) by reflexivity.
  rewrite E, scan_package, scan_identifier by assumption.
  unfold format.word at 2. rewrite bool_decide_eq_false_2 by assumption.
  reflexivity.
Qed.

(** The formatter accepts the header and a package clause whose name is an
    identifier, and takes the blank lines at the end away. *)
Lemma Source_header (package : string) :
  format.is_package_name package = true ->
  format.Source (header_source package)
  = Some (Formatted (header_formatted package)).
Proof.
  unfold format.is_package_name. intros H.
  apply andb_true_iff in H as [H Hu]. apply andb_true_iff in H as [Hi Hk].
  apply negb_true_iff in Hk, Hu. apply bool_decide_eq_false in Hk.
  pose proof (identifier_no_newline _ Hi) as Hn.
  unfold format.Source, format.lines.
  change (header_source package)
    with ("// Code generated by pgsqlconsts; DO NOT EDIT."
          +:+ String (ascii_of_nat 10)
                (("package " +:+ package)
                 +:+ String (ascii_of_nat 10)
                       (String (ascii_of_nat 10)
                          (String (ascii_of_nat 10) "")))).
  rewrite (Split_line "// Code generated by pgsqlconsts; DO NOT EDIT.");
    [|vm_compute; intuition discriminate].
  rewrite (Split_line ("package " +:+ package)).
  2:{ cbn. intros [E|[E|[E|[E|[E|[E|[E|[E|E]]]]]]]];
        try discriminate E. now apply Hn. }
  change (strings.Split
            (String (ascii_of_nat 10) (String (ascii_of_nat 10) ""))
            (ascii_of_nat 10)) with [""; ""; ""].
  cbn [List.rev app format.classify_all].
  assert (Ec : format.classify "// Code generated by pgsqlconsts; DO NOT EDIT."
               = Some (format.CommentLine
                         "// Code generated by pgsqlconsts; DO NOT EDIT."))
    by (vm_compute; reflexivity).
  assert (Eb : format.classify "" = Some format.BlankLine) by reflexivity.
  rewrite Ec, classify_package, Eb by assumption.
  unfold format.parse.
  cbn [format.parse_doc app String.eqb Ascii.eqb Bool.eqb andb].
  rewrite Hu. cbn [negb format.parse_decls format.print format.File_Doc
                   format.File_Name format.File_Decls format.comment_lines
                   map String.concat].
  reflexivity.
Qed.

Lemma main_format_of (rest : string -> FormatOutcome) (src formatted : string)
  (w : World) :
  format.Source src = Some (Formatted formatted) ->
  main_format (format_Source_of rest) src w = (w, inl formatted).
Proof.
  intros H. unfold main_format, format_Source_of. now rewrite H.
Qed.

Section FormatFacts.

Variable table : rune -> rune.
Variables strings_Title strings_ToUpper strings_ToLower : string -> string.
Variable pg_query_Parse : string -> list nodes.Node + string.
Variable os_Create : string -> bool.
(** What the formatter does with a text outside the fragment. *)
Variable rest : string -> FormatOutcome.

(** C5: over the package [models] with the table [users] (columns [id int4]
    and [email text]) the default template renders [models_source]: a
    comment that names the table [users], then the variable [Users], a
    struct with the fields [TableName], [ID] and [Email], the last two with
    their SQL types in a trailing comment, whose values are "users", "id"
    and "email".  The formatter accepts that text: it returns
    [models_formatted], the same declarations in the canonical layout, and
    the verification step of [main] returns it; the formatter returns
    [models_formatted] itself unchanged. *)
Theorem default_template_models (w : World) :
  main_render table strings_Title strings_ToUpper strings_ToLower fragment
    gencodeTmpl models_data w
  = (w, inl models_source)
  /\ contains models_source
       ("// Users contains constants for the users table" +:+ NL
        +:+ "var Users = struct{" +:+ NL
        +:+ TAB +:+ "TableName string" +:+ NL
        +:+ TAB +:+ "ID string // int4" +:+ NL
        +:+ TAB +:+ "Email string // text" +:+ NL
        +:+ "}{" +:+ DQ +:+ "users" +:+ DQ +:+ "," +:+ DQ +:+ "id" +:+ DQ
        +:+ "," +:+ DQ +:+ "email" +:+ DQ +:+ ",") = true
  /\ format.Source models_source = Some (Formatted models_formatted)
  /\ main_format (format_Source_of rest) models_source w
     = (w, inl models_formatted)
  /\ format.Source models_formatted = Some (Formatted models_formatted)
  /\ main_format (format_Source_of rest) models_formatted w
     = (w, inl models_formatted).
Proof.
  assert (E1 : format.Source models_source = Some (Formatted models_formatted))
    by (vm_compute; reflexivity).
  assert (E2 : format.Source models_formatted
               = Some (Formatted models_formatted))
    by (vm_compute; reflexivity).
  split; [apply render_models|]. split; [vm_compute; reflexivity|].
  split; [exact E1|]. split; [now apply main_format_of|].
  split; [exact E2 | now apply main_format_of].
Qed.

Abbreviation main_formatted :=
  (main table strings_Title strings_ToUpper strings_ToLower pg_query_Parse
     fragment (format_Source_of rest) os_Create).

(** C10 (amended): when no table is extracted (an empty schema, an
    allowlist that matches nothing) the default template renders the header
    comment and the package clause alone; when the package name is an
    identifier that a package clause may have, the formatter accepts that
    text and returns the header comment and the package clause, [main]
    returns, and that text is the content of the output file, or is written
    to the standard output when no file is named. *)
Theorem main_no_tables (fl : Flags) (w : World) (sqlFile fc : string)
  (stmts : list nodes.Node) (log : list string) :
  Args fl = [sqlFile] ->
  files w !! sqlFile = Some fc ->
  pg_query_Parse fc = inl stmts ->
  extract stmts (matchTables fl) [] = (Ok [], log) ->
  templateFile fl = "" ->
  format.is_package_name (pkg fl) = true ->
  outputFile fl = "" \/ os_Create (outputFile fl) = true ->
  main_render table strings_Title strings_ToUpper strings_ToLower fragment
    gencodeTmpl {| Data_Package := pkg fl; Data_Tables := [] |}
    (write_stderr w log)
  = (write_stderr w log, inl (header_source (pkg fl)))
  /\ format.Source (header_source (pkg fl))
     = Some (Formatted (header_formatted (pkg fl)))
  /\ main_formatted fl w
     = (if String.eqb (outputFile fl) ""
        then write_stdout (write_stderr w log) (header_formatted (pkg fl))
        else write_file (write_stderr w log) (outputFile fl)
               (header_formatted (pkg fl)),
        Returned)
  /\ extract [] (matchTables fl) [] = (Ok [], []).
Proof.
  intros HA HF HP HE HT HN HO.
  pose proof (Source_header (pkg fl) HN) as HS.
  split; [apply render_no_tables|]. split; [exact HS|].
  split; [|reflexivity].
  unfold main, and_then, main_data. rewrite HA, HF, HP, HE.
  unfold continue, main_templateText. rewrite HT.
  cbn [String.eqb negb]. unfold continue. cbv beta iota.
  rewrite render_no_tables. cbv beta iota.
  rewrite (main_format_of rest _ _ _ HS). cbv beta iota.
  unfold main_write, continue.
  destruct (String.eqb (outputFile fl) "") eqn:EO; cbn [negb]; [reflexivity|].
  destruct HO as [HO|HO]; [apply String.eqb_neq in EO; contradiction|].
  now rewrite HO.
Qed.

End FormatFacts.

(** With [-tables nothing] no table of the schema passes, and the header
    and the clause [package models] are written to [out.go]. *)
Lemma main_no_tables_witness :
  example_main (format_Source_of refuse_all) (package_flags "models")
    schema_world
  = (write_file schema_world "out.go" (header_formatted "models"), Returned).
Proof.
  assert (HE : extract schema "nothing" [] = (Ok [], []))
    by (vm_compute; reflexivity).
  assert (HN : format.is_package_name "models" = true)
    by (vm_compute; reflexivity).
  destruct (main_no_tables unicode.Latin1Title (fun s => s) (fun s => s)
              (fun s => s) schema_parser (fun _ => true) refuse_all
              (package_flags "models") schema_world "schema.sql"
              "CREATE TABLE users (...); ..." schema []
              eq_refl eq_refl eq_refl HE eq_refl HN
              (or_intror eq_refl)) as (_ & _ & H & _).
  exact H.
Defined.

(** C10, as stated, fails: with [-package] and an empty name the text
    rendered for no table is the header and the word [package]; the
    formatter refuses it, the run exits with status 1 and [out.go] is not
    written. *)
Lemma main_empty_package_counterexample :
  format.Source (header_source "")
  = Some (FormatError "expected 'IDENT', found 'EOF'")
  /\ example_main (format_Source_of accept_all) (package_flags "")
       schema_world
     = (write_stderr schema_world
          [header_source "";
           "generated bad code: expected 'IDENT', found 'EOF'"],
        Exited 1)
  /\ files (fst (example_main (format_Source_of accept_all) (package_flags "")
                   schema_world)) !! "out.go" = None.
Proof.
  split; [vm_compute; reflexivity|].
  assert (E : example_main (format_Source_of accept_all) (package_flags "")
                schema_world
              = (write_stderr schema_world
                   [header_source "";
                    "generated bad code: expected 'IDENT', found 'EOF'"],
                 Exited 1)) by (vm_compute; reflexivity).
  split; [exact E|]. rewrite E. vm_compute. reflexivity.
Qed.

(** ** Runs of [main] with the default template *)

Section MainDefault.

Variable table : rune -> rune.
Variables strings_Title strings_ToUpper strings_ToLower : string -> string.
Variable pg_query_Parse : string -> list nodes.Node + string.
Variable format_Source : string -> FormatOutcome.
Variable os_Create : string -> bool.

Abbreviation main_of engine :=
  (main table strings_Title strings_ToUpper strings_ToLower pg_query_Parse
     engine format_Source os_Create).

(** With no [-template] and a schema that is read and parsed, a run has
    four ends and no other: the panic of the extractor, the refusal of the
    formatter (the rendered text goes to the standard error), the failure
    to create the output file, and the return of [main] with the formatted
    text written to the destination.  The template itself never fails. *)
Theorem main_default_template (fl : Flags) (w : World) (sqlFile fc : string)
  (stmts : list nodes.Node) :
  Args fl = [sqlFile] ->
  files w !! sqlFile = Some fc ->
  pg_query_Parse fc = inl stmts ->
  templateFile fl = "" ->
  main_of fragment fl w
  = match extract stmts (matchTables fl) [] with
    | (Panicked, log) => (write_stderr w log, Panic)
    | (Ok data_Tables, log) =>
        let src :=
          default_source table
            {| Data_Package := pkg fl; Data_Tables := data_Tables |} in
        match format_Source src with
        | FormatError err =>
            (write_stderr w (log ++ [src; "generated bad code: " +:+ err]),
             Exited 1)
        | Formatted formatted =>
            if String.eqb (outputFile fl) ""
            then (write_stdout (write_stderr w log) formatted, Returned)
            else if os_Create (outputFile fl)
            then (write_file (write_stderr w log) (outputFile fl) formatted,
                  Returned)
            else (write_stderr w (log ++ ["error creating output file"]),
                  Exited 1)
        end
    end.
Proof.
  intros HA HF HP HT.
  unfold main, and_then, main_data. rewrite HA, HF, HP.
  destruct (extract stmts (matchTables fl) []) as [[data_Tables|] log];
    [|reflexivity].
  unfold continue, main_templateText. rewrite HT.
  cbn [String.eqb negb]. unfold continue. cbv beta iota.
  rewrite render_default. cbv beta iota zeta.
  unfold main_format, log_Fatalf, stop, continue.
  destruct (format_Source _) as [formatted|err]; cbv beta iota.
  - unfold main_write, log_Fatalf, stop, continue.
    destruct (String.eqb (outputFile fl) ""); cbn [negb]; [reflexivity|].
    destruct (os_Create (outputFile fl)); [reflexivity|].
    unfold write_stderr. cbn [files stdout stderr].
    now rewrite <- !app_assoc.
  - unfold write_stderr. cbn [files stdout stderr].
    now rewrite <- !app_assoc.
Qed.

Variable engine : Engine.

(** The arguments and the schema are examined first: a run that has not
    exactly one argument, whose file cannot be read, or whose SQL does not
    parse writes one line to the standard error and exits with status 1,
    whatever the other flags, the template, the engine and the formatter
    are: neither the template file nor the output file is looked at. *)
Theorem main_input_errors (fl : Flags) (w : World) :
  (length (Args fl) <> 1%nat ->
   main_of engine fl w
   = (write_stderr w ["Usage: pgsqlconsts [OPTION]... [SQLFILE]"], Exited 1))
  /\ (forall sqlFile,
        Args fl = [sqlFile] -> files w !! sqlFile = None ->
        main_of engine fl w
        = (write_stderr w ["unable to open " +:+ sqlFile], Exited 1))
  /\ (forall sqlFile fc err,
        Args fl = [sqlFile] -> files w !! sqlFile = Some fc ->
        pg_query_Parse fc = inr err ->
        main_of engine fl w
        = (write_stderr w ["error parsing sql: " +:+ err], Exited 1)).
Proof.
  unfold main, and_then, main_data, log_Fatalf, stop.
  split; [|split].
  - intros H. destruct (Args fl) as [|sqlFile [|]]; try reflexivity.
    now contradiction H.
  - intros sqlFile -> ->. reflexivity.
  - intros sqlFile fc err -> -> ->. reflexivity.
Qed.

End MainDefault.
(** The schema of the examples through the default template, to [out.go]. *)
Lemma main_default_template_witness :
  example_main accept_all (flags "" "out.go" "") schema_world
  = (write_file schema_world "out.go"
       (default_source unicode.Latin1Title
          {| Data_Package := "models";
             Data_Tables := [users_table; posts_table; users_again_table] |}),
     Returned).
Proof.
  rewrite (main_default_template unicode.Latin1Title (fun s => s)
             (fun s => s) (fun s => s) schema_parser accept_all
             (fun _ => true) (flags "" "out.go" "") schema_world
             "schema.sql" "CREATE TABLE users (...); ..." schema
             eq_refl eq_refl eq_refl eq_refl).
  vm_compute. reflexivity.
Defined.

(** ** The effects of a run *)

Lemma written_refl (output : string) (w : World) : written output w w.
Proof.
  repeat split; try reflexivity.
  - exists "". now rewrite append_nil_r.
  - exists []. now rewrite app_nil_r.
Qed.

Lemma written_trans (output : string) (w1 w2 w3 : World) :
  written output w1 w2 -> written output w2 w3 -> written output w1 w3.
Proof.
  intros (F1 & E1 & O1 & [t1 S1] & [l1 L1]) (F2 & E2 & O2 & [t2 S2] & [l2 L2]).
  repeat split.
  - intros path H. now rewrite F2, F1.
  - intros H. now rewrite E2, E1.
  - intros H. now rewrite O2, O1.
  - exists (t1 +:+ t2). now rewrite S2, S1, append_assoc.
  - exists (l1 ++ l2). now rewrite L2, L1, app_assoc.
Qed.

Lemma written_stderr (output : string) (w : World) (lines : list string) :
  written output w (write_stderr w lines).
Proof.
  repeat split; try reflexivity.
  - exists "". now rewrite append_nil_r.
  - now exists lines.
Qed.

Lemma and_then_written {A B : Type} (output : string) (w : World)
  (s : step A) (k : A -> World -> step B) :
  written output w (fst s) ->
  (forall a w1, written output w1 (fst (k a w1))) ->
  written output w (fst (and_then s k)).
Proof.
  intros Hs Hk. destruct s as [w1 [a|e]]; cbn [and_then fst] in *;
    [|exact Hs].
  eapply written_trans; [exact Hs | apply Hk].
Qed.

Lemma and_then_exits {A B : Type} (s : step A) (k : A -> World -> step B) :
  (forall e, snd s = inr e -> exits_with_1 e) ->
  (forall a w1 e, snd (k a w1) = inr e -> exits_with_1 e) ->
  forall e, snd (and_then s k) = inr e -> exits_with_1 e.
Proof.
  intros Hs Hk e. destruct s as [w1 [a|e1]]; cbn [and_then snd] in *;
    [apply Hk|].
  intros [= <-]. now apply Hs.
Qed.

Section MainEffects.

Variable table : rune -> rune.
Variables strings_Title strings_ToUpper strings_ToLower : string -> string.
Variable pg_query_Parse : string -> list nodes.Node + string.
Variable engine : Engine.
Variable format_Source : string -> FormatOutcome.
Variable os_Create : string -> bool.

Ltac cases :=
  unfold log_Fatalf, stop, continue;
  repeat match goal with
    | |- context [match ?x with _ => _ end] => destruct x
    end; cbn [fst snd].

Lemma main_data_written (output : string) (fl : Flags) (w : World) :
  written output w (fst (main_data pg_query_Parse fl w)).
Proof. unfold main_data. cases; apply written_stderr. Qed.

Lemma main_templateText_written (output : string) (fl : Flags) (w : World) :
  written output w (fst (main_templateText fl w)).
Proof.
  unfold main_templateText.
  cases; first [apply written_stderr | apply written_refl].
Qed.

Lemma main_render_written (output text : string) (data : Data) (w : World) :
  written output w
    (fst (main_render table strings_Title strings_ToUpper strings_ToLower
            engine text data w)).
Proof.
  unfold main_render.
  cases; first [apply written_stderr | apply written_refl].
Qed.

Lemma main_format_written (output buf : string) (w : World) :
  written output w (fst (main_format format_Source buf w)).
Proof.
  unfold main_format. cases; [apply written_refl|].
  eapply written_trans; apply written_stderr.
Qed.

Lemma main_write_written (fl : Flags) (formatted : string) (w : World) :
  written (outputFile fl) w (fst (main_write os_Create fl formatted w)).
Proof.
  unfold main_write.
  destruct (String.eqb (outputFile fl) "") eqn:E; cbn [negb].
  - apply String.eqb_eq in E. unfold continue. cbn [fst].
    repeat split; try reflexivity.
    + intros H. now contradiction H.
    + now exists formatted.
    + exists []. now rewrite app_nil_r.
  - apply String.eqb_neq in E.
    destruct (os_Create (outputFile fl));
      [|unfold log_Fatalf, stop; apply written_stderr].
    unfold continue. cbn [fst]. repeat split; try reflexivity.
    + intros path H. cbn [files write_file]. now rewrite lookup_insert_ne.
    + intros H. now contradiction E.
    + exists "". now rewrite append_nil_r.
    + exists []. now rewrite app_nil_r.
Qed.

(** Whatever the flags, the files, the parser, the template engine and the
    formatter are, and however the run ends: no file but the one named by
    [-output] is changed, and none at all when [-output] is empty; the
    standard output is untouched when [-output] is given and otherwise only
    added to; the standard error is only added to; and a run that ends in
    [os.Exit] has the status 1. *)
Theorem main_effects (fl : Flags) (w : World) :
  written (outputFile fl) w
    (fst (main table strings_Title strings_ToUpper strings_ToLower
            pg_query_Parse engine format_Source os_Create fl w))
  /\ exits_with_1
       (snd (main table strings_Title strings_ToUpper strings_ToLower
               pg_query_Parse engine format_Source os_Create fl w)).
Proof.
  unfold main.
  match goal with
  | |- context [and_then (main_data pg_query_Parse fl w) ?k] =>
      set (r := and_then (main_data pg_query_Parse fl w) k)
  end.
  assert (Hw : written (outputFile fl) w (fst r)).
  { subst r. apply and_then_written; [apply main_data_written|].
    intros data w1.
    apply and_then_written; [apply main_templateText_written|].
    intros text w2. apply and_then_written; [apply main_render_written|].
    intros buf w3. apply and_then_written; [apply main_format_written|].
    intros formatted w4. apply main_write_written. }
  assert (He : forall e, snd r = inr e -> exits_with_1 e).
  { subst r. apply and_then_exits.
    { unfold main_data. cases; intros e [= <-]; reflexivity. }
    intros data w1. apply and_then_exits.
    { unfold main_templateText. cases; intros e [= <-]; reflexivity. }
    intros text w2. apply and_then_exits.
    { unfold main_render. cases; intros e [= <-]; reflexivity. }
    intros buf w3. apply and_then_exits.
    { unfold main_format. cases; intros e [= <-]; reflexivity. }
    intros formatted w4. unfold main_write.
    cases; intros e [= <-]; reflexivity. }
  destruct r as [w' [[]|e]]; cbn [fst snd] in *; split;
    [exact Hw | exact I | exact Hw | now apply He].
Qed.

End MainEffects.

(** ** Runs of [main] with a template file *)

Section MainTemplate.

Variable table : rune -> rune.
Variables strings_Title strings_ToUpper strings_ToLower : string -> string.
Variable pg_query_Parse : string -> list nodes.Node + string.
Variable engine : Engine.
Variable format_Source : string -> FormatOutcome.
Variable os_Create : string -> bool.

Abbreviation main_with :=
  (main table strings_Title strings_ToUpper strings_ToLower pg_query_Parse
     engine format_Source os_Create).

(** The template file is read after the schema has been read, parsed and
    reduced to tables: when it cannot be read the run exits with status 1
    after the log of the extraction; and the built-in template is what is
    used without the flag: a file that holds a copy of it gives the run
    that no [-template] gives. *)
Theorem main_template_file (fl : Flags) (w : World) :
  templateFile fl <> "" ->
  (files w !! templateFile fl = None ->
   forall w1 data,
     main_data pg_query_Parse fl w = (w1, inl data) ->
     main_with fl w
     = (write_stderr w1 ["unable to read template file"], Exited 1))
  /\ (files w !! templateFile fl = Some gencodeTmpl ->
      main_with fl w = main_with (no_template fl) w).
Proof.
  intros Ht. apply String.eqb_neq in Ht.
  assert (Hd : main_data pg_query_Parse (no_template fl) w
               = main_data pg_query_Parse fl w) by reflexivity.
  pose proof (main_data_frame pg_query_Parse fl w) as [Hf _].
  split.
  - intros Hn w1 data E. unfold main, and_then. rewrite E in *.
    cbn [fst] in Hf. unfold main_templateText. rewrite Ht, Hf, Hn.
    reflexivity.
  - intros Hs. unfold main, and_then. rewrite Hd.
    destruct (main_data pg_query_Parse fl w) as [w1 [data|e]];
      [|reflexivity].
    cbn [fst] in Hf. unfold main_templateText.
    rewrite Ht, Hf, Hs. reflexivity.
Qed.

End MainTemplate.

(** With [-template copy.tmpl], a copy of the built-in template, the run
    is the run without the flag. *)
Lemma main_template_file_witness :
  example_main accept_all (flags "" "out.go" "copy.tmpl") copy_world
  = example_main accept_all (flags "" "out.go" "") copy_world.
Proof.
  apply (main_template_file unicode.Latin1Title (fun s => s) (fun s => s)
           (fun s => s) schema_parser fragment accept_all (fun _ => true)
           (flags "" "out.go" "copy.tmpl") copy_world);
    [discriminate | vm_compute; reflexivity].
Defined.

(** ** Further properties of [goTitleCase] *)

(** Past the first code point the loop does not look at the offsets. *)
Lemma goTitleCase_fold_offset (table : rune -> rune) (s : list Z)
  (i j skip : nat) (st : Buffer.t * bool) :
  i <> 0%nat -> j <> 0%nat ->
  fold_left (goTitleCase_step table) (range_from i skip s) st
  = fold_left (goTitleCase_step table) (range_from j skip s) st.
Proof.
  revert i j skip st. induction s as [|b s IH]; intros i j skip st Hi Hj;
    [reflexivity|].
  cbn [range_from]. destruct skip as [|k]; [|now apply IH].
  destruct (utf8.DecodeRune b s) as [r size]. cbn [fold_left].
  assert (E : goTitleCase_step table st (i, r)
              = goTitleCase_step table st (j, r)).
  { unfold goTitleCase_step. destruct st as [buf next].
    apply Nat.eqb_neq in Hi, Hj. now rewrite Hi, Hj. }
  rewrite E. now apply IH.
Qed.

(** An underscore at the head of a name is dropped and changes nothing
    else: the character after it is upper-cased as the first character
    is.  The names [s] and [_s] get the same Go identifier, unless [s] is
    [id]. *)
Theorem goTitleCase_leading_underscore (table : rune -> rune) (s : string) :
  s <> "id" ->
  goTitleCase table (String "_" s) = goTitleCase table s.
Proof.
  intros Hs. unfold goTitleCase.
  apply String.eqb_neq in Hs. rewrite Hs.
  change (String.eqb (String "_" s) "id") with false. cbv iota.
  f_equal. unfold range_string.
  change (bytes_of_string (String "_" s)) with (95 :: bytes_of_string s).
  destruct (bytes_of_string s) as [|b bs]; [reflexivity|].
  change (range_from 0 0 (95 :: b :: bs))
    with ((0%nat, 95) :: range_from 1 0 (b :: bs)).
  cbn [range_from fold_left].
  destruct (utf8.DecodeRune b bs) as [r size]. cbn [fold_left].
  change (goTitleCase_step table (Buffer.empty, false) (0%nat, 95))
    with (Buffer.empty, true).
  assert (E : goTitleCase_step table (Buffer.empty, true) (1%nat, r)
              = goTitleCase_step table (Buffer.empty, false) (0%nat, r))
    by reflexivity.
  rewrite E. f_equal. now apply goTitleCase_fold_offset.
Qed.

(** [_name] gives what [name] gives, but [_id] gives [Id] and [id] gives
    [ID]. *)
Lemma goTitleCase_leading_underscore_witness :
  goTitleCase unicode.Latin1Title "_name"
  = goTitleCase unicode.Latin1Title "name"
  /\ goTitleCase unicode.Latin1Title "_id" = "Id"
  /\ goTitleCase unicode.Latin1Title "id" = "ID".
Proof.
  split; [|split; vm_compute; reflexivity].
  apply goTitleCase_leading_underscore. discriminate.
Defined.

(** ** The result of [goTitleCase] as UTF-8 *)

(** A decoded rune is never half of a surrogate pair. *)
Lemma DecodeRune_valid (s0 : Z) (rest : list Z) :
  0 <= s0 -> utf8.ValidRune (fst (utf8.DecodeRune s0 rest)).
Proof.
  intros H0. unfold utf8.ValidRune, utf8.DecodeRune, utf8.first, utf8.cont,
    utf8.RuneError, utf8.MaxRune, utf8.surrogateMin, utf8.surrogateMax.
  repeat (cbn [Nat.leb];
          match goal with
          | |- context [if ?c then _ else _] => destruct c eqn:?
          | |- context [match ?l with [] => _ | _ :: _ => _ end] => destruct l
          end);
    cbn [fst]; try lia;
    unfold utf8.locb, utf8.hicb in *; utf8_facts.decoded_value; dlia.
Qed.

Lemma range_from_valid (s : list Z) (i skip : nat) :
  Forall (fun b => 0 <= b < 256) s ->
  Forall utf8.ValidRune (map snd (range_from i skip s)).
Proof.
  intros H. revert i skip.
  induction H as [|b s Hb Hs IH]; intros i skip; cbn [range_from].
  - constructor.
  - destruct skip as [|k]; [|apply IH].
    pose proof (DecodeRune_valid b s (proj1 Hb)) as Hr.
    destruct (utf8.DecodeRune b s) as [r size]. cbn [map snd].
    constructor; [exact Hr | apply IH].
Qed.

Lemma runes_valid (s : string) : Forall utf8.ValidRune (runes s).
Proof. apply range_from_valid, bytes_of_string_range. Qed.

Lemma ValidRune_range (r : rune) :
  utf8.ValidRune r -> 0 <= r <= utf8.MaxRune.
Proof.
  unfold utf8.ValidRune, utf8.surrogateMin, utf8.surrogateMax, utf8.MaxRune.
  lia.
Qed.

Lemma sanitize_valid (r : rune) :
  0 <= r <= utf8.MaxRune -> utf8.ValidRune (sanitize r).
Proof.
  unfold sanitize, utf8.ValidRune, utf8.surrogateMin, utf8.surrogateMax,
    utf8.MaxRune, utf8.RuneError.
  intros H. destruct ((55296 <=? r) && (r <=? 57343)) eqn:E; lia.
Qed.

Lemma sanitize_id (r : rune) : utf8.ValidRune r -> sanitize r = r.
Proof.
  unfold sanitize, utf8.ValidRune, utf8.surrogateMin, utf8.surrogateMax,
    utf8.MaxRune.
  intros H. destruct ((55296 <=? r) && (r <=? 57343)) eqn:E; [lia|reflexivity].
Qed.

Lemma EncodeRune_sanitize (r : rune) :
  utf8.EncodeRune (sanitize r) = utf8.EncodeRune r.
Proof.
  unfold sanitize.
  destruct ((utf8.surrogateMin <=? r) && (r <=? utf8.surrogateMax)) eqn:E;
    [|reflexivity].
  rewrite (utf8_facts.EncodeRune_surrogate r) by lia. reflexivity.
Qed.

Lemma encode_runes_sanitize (rs : list rune) :
  utf8.encode_runes (map sanitize rs) = utf8.encode_runes rs.
Proof.
  unfold utf8.encode_runes. induction rs as [|r rs IH]; [reflexivity|].
  cbn [map flat_map]. now rewrite EncodeRune_sanitize, IH.
Qed.

(** The code points of an encoded string are the code points encoded,
    halves of surrogate pairs replaced. *)
Lemma runes_encoded (rs : list rune) :
  Forall (fun c => 0 <= c <= utf8.MaxRune) rs ->
  runes (string_of_runes rs) = map sanitize rs.
Proof.
  intros H. unfold string_of_runes. rewrite <- encode_runes_sanitize.
  apply runes_string_of_runes.
  induction H as [|r rs Hr Hrs IH]; constructor;
    [now apply sanitize_valid | exact IH].
Qed.

Section CaserUTF8.

Variable table : rune -> rune.
Hypothesis table_ok : title_table_ok table.

Lemma title_spec_code_points (s : string) :
  Forall (fun c => 0 <= c <= utf8.MaxRune) (title_spec table (runes s)).
Proof.
  eapply List.Forall_impl;
    [|apply (title_spec_range table table_ok)].
  - cbn beta. tauto.
  - eapply List.Forall_impl; [|apply runes_valid]. apply ValidRune_range.
Qed.

(** Whatever the bytes of the argument are, the result is well-formed
    UTF-8: encoding its code points gives the result back.  Its code points
    are those of the specification, and a byte of the argument that is no
    UTF-8 has become [RuneError]. *)
Theorem goTitleCase_well_formed (s : string) :
  string_of_runes (runes (goTitleCase table s)) = goTitleCase table s
  /\ (s <> "id" ->
      runes (goTitleCase table s)
      = map sanitize (title_spec table (runes s))).
Proof.
  destruct (String.eqb s "id") eqn:E.
  - apply String.eqb_eq in E as ->. split; [reflexivity|].
    intros H. now contradiction H.
  - apply String.eqb_neq in E.
    assert (R : runes (goTitleCase table s)
                = map sanitize (title_spec table (runes s))).
    { rewrite (goTitleCase_refines table table_ok s E).
      apply runes_encoded, title_spec_code_points. }
    split; [|intros _; exact R].
    rewrite R. unfold string_of_runes. rewrite encode_runes_sanitize.
    now rewrite (goTitleCase_refines table table_ok s E).
Qed.

End CaserUTF8.

(** The byte 255 of [malformed_name] is no UTF-8; in the result it is the
    three bytes of [RuneError]. *)
Lemma goTitleCase_well_formed_witness :
  string_of_runes (runes (goTitleCase unicode.Latin1Title malformed_name))
  = goTitleCase unicode.Latin1Title malformed_name
  /\ runes (goTitleCase unicode.Latin1Title malformed_name)
     = [65; utf8.RuneError]
  /\ string_of_runes (runes malformed_name) <> malformed_name.
Proof.
  destruct (goTitleCase_well_formed unicode.Latin1Title Latin1Title_ok
              malformed_name) as [H1 H2].
  split; [exact H1|]. split; [|vm_compute; discriminate].
  rewrite H2 by discriminate. vm_compute. reflexivity.
Defined.

(** ** [goTitleCase] twice *)

Section CaserTwice.

Variable table : rune -> rune.
Hypothesis table_ok : title_table_ok table.
Hypothesis table_valid : title_table_valid table.
Hypothesis table_idempotent : title_table_idempotent table.

Lemma ToTitle_valid (c : rune) :
  utf8.ValidRune c -> utf8.ValidRune (unicode.ToTitle table c).
Proof.
  intros H. unfold unicode.ToTitle.
  destruct (c <=? unicode.MaxASCII) eqn:E.
  - revert H E. unfold utf8.ValidRune, utf8.surrogateMin, utf8.surrogateMax,
      utf8.MaxRune, unicode.MaxASCII.
    destruct ((97 <=? c) && (c <=? 122)) eqn:E2; lia.
  - apply table_valid; [lia | exact H].
Qed.

Lemma ToTitle_idempotent (c : rune) :
  utf8.ValidRune c ->
  unicode.ToTitle table (unicode.ToTitle table c) = unicode.ToTitle table c.
Proof.
  intros H. unfold unicode.ToTitle at 2 3.
  destruct (c <=? unicode.MaxASCII) eqn:E.
  - unfold unicode.ToTitle, unicode.MaxASCII in *.
    destruct ((97 <=? c) && (c <=? 122)) eqn:E2.
    + assert (E3 : (c - (97 - 65) <=? 127) = true) by lia.
      assert (E4 : (97 <=? c - (97 - 65)) && (c - (97 - 65) <=? 122) = false)
        by lia.
      now rewrite E3, E4.
    + now rewrite E, E2.
  - apply table_idempotent; [lia | exact H].
Qed.

Lemma upper_after_separator_valid (rs : list rune) (after : bool) :
  Forall utf8.ValidRune rs ->
  Forall utf8.ValidRune (upper_after_separator table after rs).
Proof.
  intros H. revert after. induction H as [|c rs Hc Hrs IH]; intros after.
  - constructor.
  - cbn [upper_after_separator]. constructor; [|apply IH].
    destruct after; [now apply ToTitle_valid | exact Hc].
Qed.

Lemma title_spec_valid (rs : list rune) :
  Forall utf8.ValidRune rs -> Forall utf8.ValidRune (title_spec table rs).
Proof.
  intros H. apply List.Forall_forall. intros c Hin.
  unfold title_spec in Hin. apply List.filter_In in Hin as [Hin _].
  pose proof (upper_after_separator_valid rs true H) as Hr.
  rewrite List.Forall_forall in Hr. now apply Hr.
Qed.

(** Upper-casing after the separators changes nothing in a list that was
    upper-cased after its separators and lost its underscores. *)
Lemma upper_after_separator_twice (rs : list rune) (after after' : bool) :
  Forall utf8.ValidRune rs ->
  (after' = true -> after = true) ->
  upper_after_separator table after'
    (List.filter (fun c => negb (c =? UNDERSCORE))
       (upper_after_separator table after rs))
  = List.filter (fun c => negb (c =? UNDERSCORE))
      (upper_after_separator table after rs).
Proof.
  intros H. revert after after'.
  induction H as [|c rs Hc Hrs IH]; intros after after' Ha; [reflexivity|].
  cbn [upper_after_separator List.filter].
  set (c' := if after then unicode.ToTitle table c else c).
  assert (Es : is_separator c' = is_separator c).
  { subst c'. destruct after; [|reflexivity].
    apply ToTitle_separator; [exact table_ok|].
    now apply ValidRune_range in Hc. }
  destruct (c' =? UNDERSCORE) eqn:Eu; cbn [negb].
  - apply IH. intros _. unfold is_separator in *. rewrite <- Es, Eu.
    apply orb_true_r.
  - cbn [upper_after_separator]. f_equal.
    + destruct after'; [|reflexivity]. subst c'. rewrite Ha by reflexivity.
      now apply ToTitle_idempotent.
    + apply IH. now rewrite Es.
Qed.

Lemma title_spec_twice (rs : list rune) :
  Forall utf8.ValidRune rs ->
  title_spec table (title_spec table rs) = title_spec table rs.
Proof.
  intros H. unfold title_spec.
  rewrite upper_after_separator_twice by (assumption || tauto).
  induction (upper_after_separator table true rs) as [|c l IH];
    [reflexivity|].
  cbn [List.filter]. destruct (negb (c =? UNDERSCORE)) eqn:E;
    cbn [List.filter]; [|exact IH]. now rewrite E, IH.
Qed.

(** The first code point of the specification's result is upper-cased: the
    result is never [id]. *)
Lemma title_spec_not_id (rs : list rune) (after : bool) :
  Forall utf8.ValidRune rs ->
  after = true ->
  List.filter (fun c => negb (c =? UNDERSCORE))
    (upper_after_separator table after rs) <> [105; 100].
Proof.
  intros H. revert after. induction H as [|c rs Hc Hrs IH]; intros after ->;
    [discriminate|].
  cbn [upper_after_separator List.filter].
  destruct (unicode.ToTitle table c =? UNDERSCORE) eqn:Eu; cbn [negb].
  - apply IH. rewrite ToTitle_eqb_UNDERSCORE in Eu
      by (exact table_ok || now apply ValidRune_range in Hc).
    unfold is_separator. rewrite Eu. apply orb_true_r.
  - intros [= E _]. pose proof (ToTitle_idempotent c Hc) as Hi.
    rewrite E in Hi. change (unicode.ToTitle table 105) with 73 in Hi.
    discriminate Hi.
Qed.

(** Applied to its own result, [goTitleCase] returns it unchanged. *)
Theorem goTitleCase_idempotent (s : string) :
  goTitleCase table (goTitleCase table s) = goTitleCase table s.
Proof.
  destruct (String.eqb s "id") eqn:E.
  { apply String.eqb_eq in E as ->. vm_compute. reflexivity. }
  apply String.eqb_neq in E.
  pose proof (runes_valid s) as Hv.
  pose proof (title_spec_valid _ Hv) as Ht.
  assert (R : runes (goTitleCase table s) = title_spec table (runes s)).
  { rewrite (goTitleCase_refines table table_ok s E).
    now apply runes_string_of_runes. }
  assert (N : goTitleCase table s <> "id").
  { intros Hid. rewrite Hid in R. symmetry in R.
    revert R. now apply title_spec_not_id. }
  rewrite (goTitleCase_refines table table_ok _ N), R.
  rewrite title_spec_twice by assumption.
  symmetry. now apply goTitleCase_refines.
Qed.

End CaserTwice.

Lemma Latin1Title_valid : title_table_valid unicode.Latin1Title.
Proof.
  intros r. unfold unicode.Latin1Title, unicode.MaxASCII, utf8.ValidRune,
    utf8.MaxRune, utf8.surrogateMin, utf8.surrogateMax. intros H Hv.
  repeat match goal with
    | |- context [if ?c then _ else _] => destruct c eqn:?
    end; lia.
Qed.

Lemma Latin1Title_idempotent : title_table_idempotent unicode.Latin1Title.
Proof.
  intros r. unfold unicode.ToTitle, unicode.Latin1Title, unicode.MaxASCII.
  intros H _.
  repeat match goal with
    | |- context [if ?c then _ else _] => destruct c eqn:?
    end; lia.
Qed.

(** [first_name] gives [FirstName], and [FirstName] gives itself. *)
Lemma goTitleCase_idempotent_witness :
  goTitleCase unicode.Latin1Title (goTitleCase unicode.Latin1Title "first_name")
  = goTitleCase unicode.Latin1Title "first_name"
  /\ goTitleCase unicode.Latin1Title "first_name" = "FirstName".
Proof.
  split; [|vm_compute; reflexivity].
  apply goTitleCase_idempotent;
    [apply Latin1Title_ok | apply Latin1Title_valid
    | apply Latin1Title_idempotent].
Defined.

(** ** [goTitleCase] on ASCII names *)

Lemma identity_table_ok : title_table_ok (fun r => r).
Proof.
  intros r. unfold unicode.MaxASCII, utf8.MaxRune, SPACE, UNDERSCORE. lia.
Qed.

Lemma ToTitle_ascii (table table' : rune -> rune) (c : rune) :
  c < 0x80 -> unicode.ToTitle table c = unicode.ToTitle table' c.
Proof.
  intros H. unfold unicode.ToTitle, unicode.MaxASCII.
  assert (E : (c <=? 127) = true) by lia. now rewrite E.
Qed.

Lemma ToTitle_ascii_range (table : rune -> rune) (c : rune) :
  0 <= c < 0x80 -> 0 <= unicode.ToTitle table c < 0x80.
Proof.
  intros H. unfold unicode.ToTitle, unicode.MaxASCII.
  assert (E : (c <=? 127) = true) by lia. rewrite E.
  destruct ((97 <=? c) && (c <=? 122)) eqn:E2; lia.
Qed.

Lemma goTitleCase_fold_ascii (table table' : rune -> rune)
  (l : list (nat * rune)) (st : Buffer.t * bool) :
  Forall (fun p => snd p < 0x80) l ->
  fold_left (goTitleCase_step table) l st
  = fold_left (goTitleCase_step table') l st.
Proof.
  intros H. revert st. induction H as [|[i c] l Hc Hl IH]; intros st;
    [reflexivity|].
  cbn [fold_left]. rewrite IH. f_equal.
  unfold goTitleCase_step. destruct st as [buf next].
  now rewrite (ToTitle_ascii table table' c Hc).
Qed.

Lemma upper_after_separator_ascii (table : rune -> rune) (rs : list rune)
  (after : bool) :
  Forall (fun c => 0 <= c < 0x80) rs ->
  Forall (fun c => 0 <= c < 0x80) (upper_after_separator table after rs).
Proof.
  intros H. revert after. induction H as [|c rs Hc Hrs IH]; intros after.
  - constructor.
  - cbn [upper_after_separator]. constructor; [|apply IH].
    destruct after; [now apply ToTitle_ascii_range | exact Hc].
Qed.

Lemma upper_after_separator_tables (table table' : rune -> rune)
  (rs : list rune) (after : bool) :
  Forall (fun c => c < 0x80) rs ->
  upper_after_separator table after rs
  = upper_after_separator table' after rs.
Proof.
  intros H. revert after. induction H as [|c rs Hc Hrs IH]; intros after;
    [reflexivity|].
  cbn [upper_after_separator]. rewrite IH. f_equal.
  destruct after; [now apply ToTitle_ascii | reflexivity].
Qed.

Lemma upper_after_separator_length (table : rune -> rune) (rs : list rune)
  (after : bool) :
  length (upper_after_separator table after rs) = length rs.
Proof.
  revert after. induction rs as [|c rs IH]; intros after; [reflexivity|].
  cbn [upper_after_separator length]. now rewrite IH.
Qed.

Lemma encode_runes_ascii (rs : list rune) :
  Forall (fun c => 0 <= c < 0x80) rs -> utf8.encode_runes rs = rs.
Proof.
  unfold utf8.encode_runes. induction 1 as [|c rs Hc Hrs IH]; [reflexivity|].
  cbn [flat_map]. rewrite utf8_facts.EncodeRune_1 by lia. now rewrite IH.
Qed.

Lemma bytes_of_string_length (s : string) :
  length (bytes_of_string s) = String.length s.
Proof.
  unfold bytes_of_string. rewrite length_map.
  induction s as [|c s IH]; [reflexivity|]. cbn. now rewrite IH.
Qed.

(** For a name of ASCII bytes the case tables of [unicode] are not
    consulted: whatever they are, the bytes of the result are those of the
    name with the first byte and every byte after a space or an underscore
    upper-cased (a lower-case letter loses 32) and the underscores removed;
    they are ASCII, and no more than the bytes of the name. *)
Theorem goTitleCase_ascii (table table' : rune -> rune) (s : string) :
  Forall (fun b => b < 0x80) (bytes_of_string s) ->
  s <> "id" ->
  goTitleCase table s = goTitleCase table' s
  /\ bytes_of_string (goTitleCase table s)
     = title_spec table' (bytes_of_string s)
  /\ Forall (fun b => 0 <= b < 0x80) (bytes_of_string (goTitleCase table s))
  /\ (String.length (goTitleCase table s) <= String.length s)%nat.
Proof.
  intros Ha Hs.
  assert (Hb : Forall (fun b => 0 <= b < 0x80) (bytes_of_string s)).
  { pose proof (bytes_of_string_range s) as Hr.
    rewrite List.Forall_forall in *. intros b Hin.
    specialize (Ha b Hin). specialize (Hr b Hin). lia. }
  assert (Hr : runes s = bytes_of_string s)
    by (now apply runes_ascii_from).
  assert (Hi : forall t t', goTitleCase t s = goTitleCase t' s).
  { intros t t'. unfold goTitleCase. destruct (String.eqb s "id");
      [reflexivity|].
    f_equal. f_equal. apply goTitleCase_fold_ascii.
    apply List.Forall_forall. intros p Hp.
    assert (Hin : In (snd p) (runes s)) by (now apply in_map).
    rewrite Hr in Hin. rewrite List.Forall_forall in Ha. now apply Ha. }
  assert (Ht : forall t, Forall (fun c => 0 <= c < 0x80)
                           (title_spec t (bytes_of_string s))).
  { intros t. unfold title_spec.
    pose proof (upper_after_separator_ascii t _ true Hb) as Hu.
    rewrite List.Forall_forall in *. intros c Hc.
    apply List.filter_In in Hc as [Hc _]. now apply Hu. }
  assert (Hbytes : bytes_of_string (goTitleCase table s)
                   = title_spec (fun r => r) (bytes_of_string s)).
  { rewrite (Hi table (fun r => r)).
    rewrite (goTitleCase_refines _ identity_table_ok s Hs), Hr.
    unfold string_of_runes. rewrite encode_runes_ascii by apply Ht.
    apply bytes_of_string_of_bytes.
    eapply List.Forall_impl; [|apply Ht]. cbn beta. lia. }
  assert (Hspec : title_spec (fun r => r) (bytes_of_string s)
                  = title_spec table' (bytes_of_string s)).
  { unfold title_spec. f_equal. now apply upper_after_separator_tables. }
  split; [apply Hi|]. split; [now rewrite Hbytes|].
  split; [rewrite Hbytes; apply Ht|].
  rewrite <- !bytes_of_string_length, Hbytes. unfold title_spec.
  etransitivity; [apply List.filter_length_le|].
  now rewrite upper_after_separator_length.
Qed.

(** [user_name] gives the bytes of [UserName] with the tables of Latin-1
    and with no table at all. *)
Lemma goTitleCase_ascii_witness :
  goTitleCase unicode.Latin1Title "user_name"
  = goTitleCase (fun r => r) "user_name"
  /\ bytes_of_string (goTitleCase unicode.Latin1Title "user_name")
     = bytes_of_string "UserName".
Proof.
  assert (Ha : Forall (fun b => b < 0x80) (bytes_of_string "user_name"))
    by (vm_compute; repeat constructor).
  assert (Hs : "user_name" <> "id") by discriminate.
  destruct (goTitleCase_ascii unicode.Latin1Title (fun r => r) "user_name"
              Ha Hs) as (H1 & H2 & _).
  split; [exact H1|]. rewrite H2. vm_compute. reflexivity.
Defined.

